(** * Cucumber expressions (Go): the expression rewriter and the matcher

    A shallow embedding of [cucumber_expression.go].  Go strings are byte
    strings, modelled by [string]; a function returning [(T, error)] returns a
    [result]; a function that may panic returns an [outcome]; the receiver
    [c *CucumberExpression] and the memory its slices and pointers live in are
    passed explicitly. *)

From Stdlib Require Import String Ascii List Arith Bool Lia.
Import ListNotations.

Local Open Scope list_scope.
Local Open Scope string_scope.

(** ** Errors, results and panics *)

(** The error values the file constructs ([NewCucumberExpressionError],
    [NewUndefinedParameterTypeError]), the errors of the collaborators it calls
    and the run-time errors of the Go runtime. *)
Inductive error : Type :=
| CucumberExpressionError (message : string)
| UndefinedParameterTypeError (typeName : string)
| CollaboratorError (message : string)
| RuntimeError (message : string).

Definition NewCucumberExpressionError (message : string) : error :=
  CucumberExpressionError message.

Definition NewUndefinedParameterTypeError (typeName : string) : error :=
  UndefinedParameterTypeError typeName.

(** Go's [(A, error)]: exactly one of the two is meaningful to the callers. *)
Inductive result (A : Type) : Type :=
| Ok (a : A)
| Err (e : error).
Arguments Ok {A} a.
Arguments Err {A} e.

(** A call either returns or panics with a value ([panic(err)]). *)
Inductive outcome (A : Type) : Type :=
| Returned (a : A)
| Panicked (v : error).
Arguments Returned {A} a.
Arguments Panicked {A} v.

Definition indexOutOfRange : error := RuntimeError "index out of range".
Definition nilDereference : error :=
  RuntimeError "invalid memory address or nil pointer dereference".

(** ** Strings *)

(** [fmt.Sprintf(format, arg)] for a format with one [%s] verb. *)
Fixpoint Sprintf (format arg : string) : string :=
  match format with
  | EmptyString => EmptyString
  | String "%" (String "s" rest) => arg ++ rest
  | String ch rest => String ch (Sprintf rest arg)
  end.

(** [strings.Join(elems, sep)]. *)
Definition Join (elems : list string) (sep : string) : string :=
  String.concat sep elems.

Definition alternativesMayNotBeEmpty := "Alternative may not be empty: %s".
Definition parameterTypesCanNotBeAlternative :=
  "Parameter types cannot be alternative: %s".
Definition parameterTypesCanNotBeOptional :=
  "Parameter types cannot be optional: %s".
Definition alternativeMayNotExclusivelyContainOptionals :=
  "Alternative may not exclusively contain optionals: %s".
Definition couldNotRewrite := "Could not rewrite %s".
Definition optionalMayNotBeEmpty := "Optional may not be empty: %s".

(** The bracket class of [escapeRegexp], read off the pattern
    [([\\^\[({$.|?*+})\]])]: the pattern matches exactly one character of it. *)
Definition escapeRegexpClass : list ascii :=
  ["\"; "^"; "["; "("; "{"; "$"; "."; "|"; "?"; "*"; "+"; "}"; ")"; "]"]%char.

Definition escapeRegexp (ch : ascii) : bool :=
  existsb (Ascii.eqb ch) escapeRegexpClass.

(** [escapeRegexp.ReplaceAllString(expression, `\$1`)]: every match, one
    character long, is replaced by a backslash and the matched character. *)
Fixpoint processEscapes (expression : string) : string :=
  match expression with
  | EmptyString => EmptyString
  | String ch rest =>
      if escapeRegexp ch
      then String "\" (String ch (processEscapes rest))
      else String ch (processEscapes rest)
  end.

(** ** The expression tree *)

(** The six kinds the rewriter dispatches on; [unknownNode] stands for any
    other value of the type, which the [default:] branch receives. *)
Inductive nodeType : Type :=
| textNode
| optionalNode
| alternationNode
| alternativeNode
| parameterNode
| expressionNode
| unknownNode.

Definition nodeType_eqb (a b : nodeType) : bool :=
  match a, b with
  | textNode, textNode | optionalNode, optionalNode
  | alternationNode, alternationNode | alternativeNode, alternativeNode
  | parameterNode, parameterNode | expressionNode, expressionNode
  | unknownNode, unknownNode => true
  | _, _ => false
  end.

Record token : Type := mkToken { text : string }.

#[warning="-register-all"]
Inductive astNode : Type :=
| mkAstNode (ty : nodeType) (children : list astNode) (tok : token).

Definition node_nodeType (node : astNode) : nodeType :=
  match node with mkAstNode ty _ _ => ty end.

Definition node_nodes (node : astNode) : list astNode :=
  match node with mkAstNode _ children _ => children end.

Definition node_token (node : astNode) : token :=
  match node with mkAstNode _ _ tok => tok end.

(** Induction over a tree with the hypothesis for all the children. *)
Fixpoint astNode_forall_ind (P : astNode -> Prop)
    (step : forall ty children tok,
        Forall P children -> P (mkAstNode ty children tok))
    (node : astNode) : P node :=
  match node with
  | mkAstNode ty children tok =>
      step ty children tok
        ((fix all (l : list astNode) : Forall P l :=
            match l with
            | [] => Forall_nil P
            | n :: l' => Forall_cons n (astNode_forall_ind P step n) (all l')
            end) children)
  end.

(** ** Parameter types, the registry and memory *)

(** [reflect.Type], by the kinds a hint can name. *)
Inductive reflectType : Type :=
| stringType
| intType
| boolType
| namedType (name : string).

(** [reflect.TypeOf] of a string: the string type. *)
Definition TypeOfString : reflectType := stringType.

(** [interface{}] values a transform produces. *)
Inductive value : Type :=
| vNil
| vString (s : string)
| vInt (n : nat)
| vBool (b : bool).

(** [func(args ...*string) interface{}]: a nil argument is [None]; the only
    way such a function can fail is to panic. *)
Definition Transformer : Type := list (option string) -> outcome value.

(** [*regexp.Regexp], by the source text [String()] returns. *)
Record Regexp : Type := mkRegexp { Regexp_String : string }.

(** Modelled from the spec: the declaration of [ParameterType] is not in the
    file; its fields are those of the data model (name, capture fragments,
    transform, anonymous), [isAnonymous] reads the last one. *)
Record ParameterType : Type := mkParameterType {
  name : string;
  regexps : list Regexp;
  transform : Transformer;
  isAnonymous : bool
}.

(** Addresses of heap objects; a pointer is [Some l] or nil. *)
Definition loc : Type := nat.
Definition pointer : Type := option loc.

(** The registry as the file uses it: [LookupByTypeName] (nil when absent) and
    [defaultTransformer.Transform]. *)
Record ParameterTypeRegistry : Type := mkRegistry {
  LookupByTypeName : string -> pointer;
  defaultTransformer_Transform : string -> reflectType -> result value
}.

(** The heap: [ParameterType] objects and the backing arrays of
    [[]*ParameterType] slices by address, and the next free address. *)
Record memory : Type := mkMemory {
  objects : loc -> ParameterType;
  arrays : loc -> list pointer;
  next : loc
}.

Definition update {A : Type} (f : loc -> A) (l : loc) (a : A) : loc -> A :=
  fun l' => if Nat.eqb l' l then a else f l'.

(** A slice is nil or refers to its backing array; its length is the
    array's. *)
Definition slice : Type := option loc.

Definition elems (m : memory) (s : slice) : list pointer :=
  match s with
  | None => []
  | Some l => arrays m l
  end.

Definition allocArray (contents : list pointer) (m : memory) : loc * memory :=
  (next m,
   {| objects := objects m;
      arrays := update (arrays m) (next m) contents;
      next := S (next m) |}).

Definition allocObject (v : ParameterType) (m : memory) : loc * memory :=
  (next m,
   {| objects := update (objects m) (next m) v;
      arrays := arrays m;
      next := S (next m) |}).

(** [append(s, p)] on a slice whose capacity is its length: the elements move
    to a new array.  Where the array has room left, Go writes [p] into it and
    allocates nothing; the slice that results has the same elements either
    way. *)
Definition append (s : slice) (p : pointer) (m : memory) : slice * memory :=
  let (l, m') := allocArray (elems m s ++ [p])%list m in (Some l, m').

(** [make([]*ParameterType, n)]: [n] nil pointers in a new array. *)
Definition make (n : nat) (m : memory) : loc * memory :=
  allocArray (repeat None n) m.

(** [copy(dst, src)]: the first [min(len(dst), len(src))] elements. *)
Definition copy (dst : loc) (src : slice) (m : memory) : memory :=
  let k := Nat.min (length (arrays m dst)) (length (elems m src)) in
  {| objects := objects m;
     arrays := update (arrays m) dst
                 (firstn k (elems m src) ++ skipn k (arrays m dst))%list;
     next := next m |}.

(** [a[i] = p] for [i] in range. *)
Fixpoint setNth (l : list pointer) (i : nat) (p : pointer) : list pointer :=
  match l, i with
  | [], _ => []
  | _ :: l', 0 => p :: l'
  | x :: l', S i' => x :: setNth l' i' p
  end.

Definition store (a : loc) (i : nat) (p : pointer) (m : memory) : memory :=
  {| objects := objects m;
     arrays := update (arrays m) a (setNth (arrays m a) i p);
     next := next m |}.

Record TreeRegexp : Type := NewTreeRegexp { TreeRegexp_Regexp : Regexp }.

Record CucumberExpression : Type := mkCucumberExpression {
  source : string;
  parameterTypes : slice;
  treeRegexp : option TreeRegexp;
  parameterTypeRegistry : ParameterTypeRegistry
}.

Definition set_parameterTypes (c : CucumberExpression) (s : slice) :=
  {| source := source c;
     parameterTypes := s;
     treeRegexp := treeRegexp c;
     parameterTypeRegistry := parameterTypeRegistry c |}.

Definition set_treeRegexp (c : CucumberExpression) (t : TreeRegexp) :=
  {| source := source c;
     parameterTypes := parameterTypes c;
     treeRegexp := Some t;
     parameterTypeRegistry := parameterTypeRegistry c |}.

(** ** The rewriter *)

(** A method of the rewriter: it reads and updates the receiver and memory and
    returns a string or an error. *)
Definition state : Type := (CucumberExpression * memory)%type.
Definition M (A : Type) : Type := state -> result A * state.

Definition ret {A : Type} (a : A) : M A := fun st => (Ok a, st).
Definition fail {A : Type} (e : error) : M A := fun st => (Err e, st).
Definition bind {A B : Type} (x : M A) (f : A -> M B) : M B :=
  fun st =>
    match x st with
    | (Ok a, st') => f a st'
    | (Err e, st') => (Err e, st')
    end.
Definition check (e : option error) : M unit :=
  match e with
  | None => ret tt
  | Some err => fail err
  end.

Notation "x <- a ;; b" := (bind a (fun x => b))
  (at level 61, a at next level, right associativity).
Notation "a ;;; b" := (bind a (fun _ => b))
  (at level 61, right associativity).

Definition buildCaptureRegexp (regexps : list Regexp) : string :=
  match regexps with
  | [r] => Sprintf "(%s)" (Regexp_String r)
  | _ =>
      let captureGroups :=
        map (fun r => Sprintf "(?:%s)" (Regexp_String r)) regexps in
      Sprintf "(%s)" (Join captureGroups "|")
  end.

Definition assertNotEmpty (c : CucumberExpression) (node : astNode)
    (message : string) : option error :=
  if existsb (fun n => nodeType_eqb (node_nodeType n) textNode)
       (node_nodes node)
  then None
  else Some (NewCucumberExpressionError (Sprintf message (source c))).

Definition assertNoParameters (c : CucumberExpression) (node : astNode)
    (message : string) : option error :=
  if existsb (fun n => nodeType_eqb (node_nodeType n) parameterNode)
       (node_nodes node)
  then Some (NewCucumberExpressionError (Sprintf message (source c)))
  else None.

(** The checking loop of [rewriteAlternation]: the first alternative that
    fails a check decides the error. *)
Fixpoint checkAlternatives (c : CucumberExpression)
    (alternatives : list astNode) : option error :=
  match alternatives with
  | [] => None
  | alternative :: rest =>
      if Nat.eqb (length (node_nodes alternative)) 0
      then Some (NewCucumberExpressionError
                   (Sprintf alternativesMayNotBeEmpty (source c)))
      else
        match assertNoParameters c alternative
                parameterTypesCanNotBeAlternative with
        | Some err => Some err
        | None =>
            match assertNotEmpty c alternative
                    alternativeMayNotExclusivelyContainOptionals with
            | Some err => Some err
            | None => checkAlternatives c rest
            end
        end
  end.

Section Rewriter.

(** [node.text()] and [CheckParameterTypeName] are defined elsewhere in the
    package: the text span of a node, and the check of a type name against
    the allowed characters (nil when it passes). *)
Variable astNode_text : astNode -> string.
Variable CheckParameterTypeName : string -> option error.

Definition rewriteParameter (node : astNode) : M string :=
  fun '(c, m) =>
    let typeName := astNode_text node in
    match CheckParameterTypeName typeName with
    | Some err => (Err err, (c, m))
    | None =>
        match LookupByTypeName (parameterTypeRegistry c) typeName with
        | None => (Err (NewUndefinedParameterTypeError typeName), (c, m))
        | Some parameterType =>
            let (s, m') := append (parameterTypes c) (Some parameterType) m in
            (Ok (buildCaptureRegexp (regexps (objects m' parameterType))),
             (set_parameterTypes c s, m'))
        end
    end.

Section Nodes.

(** The recursive call of [rewriteNodeToRegex] on a child. *)
Variable recur : astNode -> M string.

(** The loop of [rewriteNodesToRegex] from index [i] on, with the
    builder's contents so far. *)
Fixpoint rewriteNodesLoop (nodes : list astNode) (i : nat)
    (delimiter : string) (builder : string) : M string :=
  match nodes with
  | [] => ret builder
  | node :: rest =>
      let builder := if Nat.ltb 0 i then builder ++ delimiter else builder in
      s <- recur node ;;
      rewriteNodesLoop rest (S i) delimiter (builder ++ s)
  end.

Definition rewriteNodesToRegex (nodes : list astNode)
    (delimiter prefix suffix : string) : M string :=
  builder <- rewriteNodesLoop nodes 0 delimiter prefix ;;
  ret (builder ++ suffix).

Definition rewriteOptional (node : astNode) : M string :=
  fun '(c, m) =>
    (check (assertNoParameters c node parameterTypesCanNotBeOptional) ;;;
     check (assertNotEmpty c node optionalMayNotBeEmpty) ;;;
     rewriteNodesToRegex (node_nodes node) EmptyString "(?:" ")?") (c, m).

Definition rewriteAlternation (node : astNode) : M string :=
  fun '(c, m) =>
    (check (checkAlternatives c (node_nodes node)) ;;;
     rewriteNodesToRegex (node_nodes node) "|" "(?:" ")") (c, m).

Definition rewriteAlternative (node : astNode) : M string :=
  rewriteNodesToRegex (node_nodes node) EmptyString EmptyString EmptyString.

Definition rewriteExpression (node : astNode) : M string :=
  rewriteNodesToRegex (node_nodes node) EmptyString "^" "$".

Definition rewriteNode (node : astNode) : M string :=
  match node_nodeType node with
  | textNode => ret (processEscapes (text (node_token node)))
  | optionalNode => rewriteOptional node
  | alternationNode => rewriteAlternation node
  | alternativeNode => rewriteAlternative node
  | parameterNode => rewriteParameter node
  | expressionNode => rewriteExpression node
  | unknownNode =>
      fun '(c, m) =>
        (Err (NewCucumberExpressionError
                (Sprintf couldNotRewrite (source c))), (c, m))
  end.

End Nodes.

Fixpoint rewriteNodeToRegex (node : astNode) : M string :=
  rewriteNode rewriteNodeToRegex node.

End Rewriter.

(** ** Construction *)

Section Construction.

Variable astNode_text : astNode -> string.
Variable CheckParameterTypeName : string -> option error.

(** [parse] and [regexp.MustCompile] are defined outside the file: the parser
    returns a tree or an error, [MustCompile] a compiled pattern or
    panics. *)
Variable parse : string -> result astNode.
Variable MustCompile : string -> outcome Regexp.

(** The pair [(Expression, error)] is a [result]; [nil, err] is [Err err]. *)
Definition NewCucumberExpression (expression : string)
    (parameterTypeRegistry : ParameterTypeRegistry) (m : memory)
  : outcome (result CucumberExpression) * memory :=
  let result :=
    {| source := expression;
       parameterTypes := None;
       treeRegexp := None;
       parameterTypeRegistry := parameterTypeRegistry |} in
  match parse expression with
  | Err err => (Returned (Err err), m)
  | Ok ast =>
      match rewriteNodeToRegex astNode_text CheckParameterTypeName ast
              (result, m) with
      | (Err err, (_, m')) => (Returned (Err err), m')
      | (Ok pattern, (result, m')) =>
          match MustCompile pattern with
          | Panicked v => (Panicked v, m')
          | Returned re =>
              (Returned (Ok (set_treeRegexp result (NewTreeRegexp re))), m')
          end
      end
  end.

End Construction.

(** ** Matching *)

Definition hintOrDefault (i : nat) (typeHints : list reflectType)
  : reflectType :=
  let typeHint := TypeOfString in
  if Nat.ltb i (length typeHints) then nth i typeHints typeHint else typeHint.

(** The closure [objectMapperTransformer] returns: [*args[0]] panics on an
    empty argument list and on a nil argument. *)
Definition objectMapperTransformer (c : CucumberExpression)
    (typeHint : reflectType) : Transformer :=
  fun args =>
    match args with
    | [] => Panicked indexOutOfRange
    | None :: _ => Panicked nilDereference
    | Some arg :: _ =>
        match defaultTransformer_Transform (parameterTypeRegistry c)
                arg typeHint with
        | Err err => Panicked err
        | Ok i => Returned i
        end
    end.

Section Matching.

(** What [deAnonymize] makes of a parameter type, a hint and a transformer:
    the fields of the new parameter type, or an error. *)
Variable deAnonymized :
  ParameterType -> reflectType -> Transformer -> result ParameterType.

(** Modelled from the spec: [deAnonymize] is not in the file;
    "de-anonymization produces a new, non-anonymous Parameter Type value
    without mutating the original": the new value is a new object. *)
Definition deAnonymize (p : loc) (t : reflectType) (tr : Transformer)
    (m : memory) : result loc * memory :=
  match deAnonymized (objects m p) t tr with
  | Err err => (Err err, m)
  | Ok v => let (q, m') := allocObject v m in (Ok q, m')
  end.

(** [BuildArguments] and the type of its results are not in the file: given
    the tree regexp, the text and the elements of the working copy it reads
    memory and returns the arguments, nil for no match, or panics. *)
Variable Argument : Type.
Variable BuildArguments :
  option TreeRegexp -> string -> list pointer -> memory ->
  outcome (option (list Argument)).

(** The [for] loop of [Match] at index [i], with [n] iterations left; it
    returns the error of the early [return nil, err], if any. *)
Fixpoint matchLoop (c : CucumberExpression) (typeHints : list reflectType)
    (parameterTypes : loc) (n i : nat) (m : memory)
  : outcome (option error) * memory :=
  match n with
  | 0 => (Returned None, m)
  | S n' =>
      match nth_error (arrays m parameterTypes) i with
      | None => (Panicked indexOutOfRange, m)
      | Some None => (Panicked nilDereference, m)
      | Some (Some p) =>
          if isAnonymous (objects m p) then
            let typeHint := hintOrDefault i typeHints in
            match deAnonymize p typeHint
                    (objectMapperTransformer c typeHint) m with
            | (Err err, m') => (Returned (Some err), m')
            | (Ok parameterType, m') =>
                matchLoop c typeHints parameterTypes n' (S i)
                  (store parameterTypes i (Some parameterType) m')
            end
          else matchLoop c typeHints parameterTypes n' (S i) m
      end
  end.

(** Lines 175 to 186 of [Match]: the working copy, or the error of the
    early return. *)
Definition workingCopy (c : CucumberExpression)
    (typeHints : list reflectType) (m : memory)
  : outcome (result loc) * memory :=
  let (parameterTypes', m1) :=
    make (length (elems m (parameterTypes c))) m in
  let m2 := copy parameterTypes' (parameterTypes c) m1 in
  match matchLoop c typeHints parameterTypes'
          (length (arrays m2 parameterTypes')) 0 m2 with
  | (Panicked v, m3) => (Panicked v, m3)
  | (Returned (Some err), m3) => (Returned (Err err), m3)
  | (Returned None, m3) => (Returned (Ok parameterTypes'), m3)
  end.

(** The result pair is [(args, err)]; [args] is [None] for nil. *)
Definition Match (c : CucumberExpression) (text : string)
    (typeHints : list reflectType) (m : memory)
  : outcome (option (list Argument) * option error) * memory :=
  match workingCopy c typeHints m with
  | (Panicked v, m') => (Panicked v, m')
  | (Returned (Err err), m') => (Returned (None, Some err), m')
  | (Returned (Ok parameterTypes'), m') =>
      match BuildArguments (treeRegexp c) text (arrays m' parameterTypes')
              m' with
      | Panicked v => (Panicked v, m')
      | Returned args => (Returned (args, None), m')
      end
  end.

End Matching.

Definition CucumberExpression_Regexp (c : CucumberExpression)
  : outcome Regexp :=
  match treeRegexp c with
  | None => Panicked nilDereference
  | Some t => Returned (TreeRegexp_Regexp t)
  end.

Definition CucumberExpression_Source (c : CucumberExpression) : string :=
  source c.

(** ** The Parameter nodes of a tree *)

(** The Parameter nodes in left-to-right order.  Text and Parameter nodes are
    the leaves of an expression: the rewriter takes their text and does not
    visit what lies below them. *)
Fixpoint parameterNodes (node : astNode) : list astNode :=
  match node with
  | mkAstNode parameterNode _ _ => [node]
  | mkAstNode textNode _ _ => []
  | mkAstNode _ children _ => flat_map parameterNodes children
  end.

(** All the nodes of kind Parameter, whatever lies above them. *)
Fixpoint allParameterNodes (node : astNode) : list astNode :=
  match node with
  | mkAstNode ty children _ =>
      ((if nodeType_eqb ty parameterNode then [node] else [])
         ++ flat_map allParameterNodes children)%list
  end.

(** The shape the parser gives a tree: below a Text or Parameter node there
    is no Parameter node. *)
Fixpoint leavesHoldNoParameter (node : astNode) : bool :=
  match node with
  | mkAstNode ty children _ =>
      match ty with
      | textNode | parameterNode =>
          forallb (fun n => match allParameterNodes n with
                            | [] => true
                            | _ => false
                            end) children
      | _ => forallb leavesHoldNoParameter children
      end
  end.

(** ** Capturing groups of a pattern *)

(** The group syntax of Go's patterns (package regexp/syntax with the Perl
    flags, as [regexp.MustCompile] reads them), as far as the number of
    capturing groups depends on it.

    Outside bracket classes and quotations, a parenthesis opens a capturing
    group unless a question mark follows it; after the question mark, [P<]
    and [<] open a named capturing group, and the flags [i], [m], [s], [U],
    [-] up to a colon or a closing parenthesis open none.  A backslash takes
    the next character out of the syntax, except that backslash-Q starts a
    quotation, which runs to the next backslash-E and is literal text.

    Inside a bracket class a parenthesis is literal.  The class ends at the
    first closing bracket that is not escaped and not its first character
    (after the caret, if it has one).  A POSIX class, an opening bracket and a
    colon, a name and a colon and a closing bracket, stays inside the bracket
    class.

    The scanner follows nothing else.  Where the reading depends on more than
    it keeps track of (an opening bracket inside a bracket class that does not
    start a POSIX class, or stands right after a dash, where it can be the end
    of a range; a group that starts with a question mark and none of the
    above) it goes to [sUnknown] and stays there. *)
Inductive scanState : Type :=
| sNormal
| sEscape
| sQuote
| sQuoteEscape
| sOpen
| sQuery
| sQueryP
| sFlags
| sClassStart
| sClassFirst
| sClass
| sClassEscape
| sClassDash
| sClassBracket
| sPosix
| sPosixColon
| sUnknown.

Definition scanNormal (ch : ascii) : scanState :=
  if Ascii.eqb ch "\" then sEscape
  else if Ascii.eqb ch "[" then sClassStart
  else if Ascii.eqb ch "(" then sOpen
  else sNormal.

(** After [(?]: the flags, then a colon or a closing parenthesis. *)
Definition scanFlags (ch : ascii) : scanState :=
  if Ascii.eqb ch ":" || Ascii.eqb ch ")" then sNormal
  else if Ascii.eqb ch "i" || Ascii.eqb ch "m" || Ascii.eqb ch "s"
          || Ascii.eqb ch "U" || Ascii.eqb ch "-" then sFlags
  else sUnknown.

(** A character of a bracket class that does not close it. *)
Definition scanInClass (ch : ascii) : scanState :=
  if Ascii.eqb ch "\" then sClassEscape
  else if Ascii.eqb ch "[" then sClassBracket
  else if Ascii.eqb ch "-" then sClassDash
  else sClass.

(** The characters of the names of the POSIX classes: [alpha], [^alpha]. *)
Definition posixNameChar (ch : ascii) : bool :=
  Ascii.eqb ch "^" || (Ascii.leb "a" ch && Ascii.leb ch "z").

(** One character: the next state and the groups it opened. *)
Definition scanStep (st : scanState) (ch : ascii) : scanState * nat :=
  match st with
  | sNormal => (scanNormal ch, 0)
  | sEscape => if Ascii.eqb ch "Q" then (sQuote, 0) else (sNormal, 0)
  | sQuote => if Ascii.eqb ch "\" then (sQuoteEscape, 0) else (sQuote, 0)
  | sQuoteEscape =>
      if Ascii.eqb ch "E" then (sNormal, 0)
      else if Ascii.eqb ch "\" then (sQuoteEscape, 0)
      else (sQuote, 0)
  | sOpen => if Ascii.eqb ch "?" then (sQuery, 0) else (scanNormal ch, 1)
  | sQuery =>
      if Ascii.eqb ch "P" then (sQueryP, 0)
      else if Ascii.eqb ch "<" then (sNormal, 1)
      else (scanFlags ch, 0)
  | sQueryP => if Ascii.eqb ch "<" then (sNormal, 1) else (sUnknown, 0)
  | sFlags => (scanFlags ch, 0)
  | sClassStart =>
      if Ascii.eqb ch "^" then (sClassFirst, 0) else (scanInClass ch, 0)
  | sClassFirst => (scanInClass ch, 0)
  | sClass => if Ascii.eqb ch "]" then (sNormal, 0) else (scanInClass ch, 0)
  | sClassEscape => (sClass, 0)
  | sClassDash =>
      if Ascii.eqb ch "]" then (sNormal, 0)
      else if Ascii.eqb ch "[" then (sUnknown, 0)
      else (scanInClass ch, 0)
  | sClassBracket => if Ascii.eqb ch ":" then (sPosix, 0) else (sUnknown, 0)
  | sPosix =>
      if Ascii.eqb ch ":" then (sPosixColon, 0)
      else if posixNameChar ch then (sPosix, 0)
      else (sUnknown, 0)
  | sPosixColon => if Ascii.eqb ch "]" then (sClass, 0) else (sUnknown, 0)
  | sUnknown => (sUnknown, 0)
  end.

Fixpoint scan (st : scanState) (pattern : string) : scanState * nat :=
  match pattern with
  | EmptyString => (st, 0)
  | String ch rest =>
      let (st', k) := scanStep st ch in
      let (st'', k') := scan st' rest in
      (st'', k + k')
  end.

(** [Regexp.NumSubexp], from the text of a pattern that compiles: the groups
    the scanner met, when it ends in its normal state.  It gives no number
    for a pattern that ends right after a backslash or an opening
    parenthesis, among the flags of a group, inside a bracket class or inside
    a quotation (of these Go compiles only the last), nor for one that took
    the scanner to [sUnknown]. *)
Definition NumSubexp (pattern : string) : option nat :=
  let (st, k) := scan sNormal pattern in
  match st with
  | sNormal => Some k
  | _ => None
  end.

(** The groups the scanner meets in a fragment. *)
Definition groupsIn (fragment : string) : nat := snd (scan sNormal fragment).

(** A fragment the scanner reads from its normal state back to it, so that
    the text after it is read as it would be without it, and that does not
    begin with a question mark, which would change the parenthesis put before
    it.  No pattern that compiles begins with a question mark.  A pattern that
    compiles can end inside a quotation, and can take the scanner to
    [sUnknown]: such fragments are not closed. *)
Definition closedFragment (fragment : string) : Prop :=
  fst (scan sNormal fragment) = sNormal /\
  match fragment with
  | String "?" _ => False
  | _ => True
  end.

(** ** A registry, a memory and some trees to run the definitions on *)

Module Sample.

(** [node.text()] as the package defines it: the token's text followed by
    the text of the children. *)
Fixpoint nodeText (node : astNode) : string :=
  match node with
  | mkAstNode _ children tok =>
      text tok ++ String.concat EmptyString (map nodeText children)
  end.

Definition illegalNameChars : list ascii :=
  ["["; "]"; "("; ")"; "$"; "."; "|"; "?"; "*"; "+"]%char.

Fixpoint anyChar (p : ascii -> bool) (s : string) : bool :=
  match s with
  | EmptyString => false
  | String ch rest => p ch || anyChar p rest
  end.

Definition checkName (typeName : string) : option error :=
  if anyChar (fun ch => existsb (Ascii.eqb ch) illegalNameChars) typeName
  then Some (CucumberExpressionError
               ("Illegal character in parameter name: " ++ typeName))
  else None.

Definition digit (ch : ascii) : option nat :=
  let n := nat_of_ascii ch in
  if (48 <=? n)%nat && (n <=? 57)%nat then Some (n - 48) else None.

Fixpoint parseDigits (acc : nat) (s : string) : option nat :=
  match s with
  | EmptyString => Some acc
  | String ch rest =>
      match digit ch with
      | Some d => parseDigits (10 * acc + d) rest
      | None => None
      end
  end.

Definition parseInt (s : string) : result value :=
  match s with
  | EmptyString => Err (CollaboratorError "invalid syntax")
  | _ =>
      match parseDigits 0 s with
      | Some n => Ok (vInt n)
      | None => Err (CollaboratorError ("invalid syntax: " ++ s))
      end
  end.

Definition defaultTransform (s : string) (t : reflectType) : result value :=
  match t with
  | stringType => Ok (vString s)
  | intType => parseInt s
  | boolType =>
      if String.eqb s "true" then Ok (vBool true)
      else if String.eqb s "false" then Ok (vBool false)
      else Err (CollaboratorError ("invalid syntax: " ++ s))
  | namedType n => Err (CollaboratorError ("unsupported type: " ++ n))
  end.

Definition firstString (args : list (option string)) : outcome value :=
  match args with
  | Some s :: _ => Returned (vString s)
  | _ => Returned vNil
  end.

Definition intTransform (args : list (option string)) : outcome value :=
  match args with
  | Some s :: _ =>
      match parseInt s with
      | Ok v => Returned v
      | Err e => Panicked e
      end
  | _ => Returned vNil
  end.

Definition anonymousType : ParameterType :=
  {| name := EmptyString; regexps := [mkRegexp ".*"];
     transform := firstString; isAnonymous := true |}.

Definition intTypeP : ParameterType :=
  {| name := "int"; regexps := [mkRegexp "-?\d+"; mkRegexp "\d+"];
     transform := intTransform; isAnonymous := false |}.

Definition wordType : ParameterType :=
  {| name := "word"; regexps := [mkRegexp "[^\s]+"];
     transform := firstString; isAnonymous := false |}.

(** A type whose one fragment has two groups of its own. *)
Definition pairType : ParameterType :=
  {| name := "pair"; regexps := [mkRegexp "(a)(b)"];
     transform := firstString; isAnonymous := false |}.

Definition sampleObjects (l : loc) : ParameterType :=
  match l with
  | 0 => anonymousType
  | 1 => intTypeP
  | 2 => wordType
  | _ => pairType
  end.

Definition lookup (typeName : string) : pointer :=
  if String.eqb typeName EmptyString then Some 0
  else if String.eqb typeName "int" then Some 1
  else if String.eqb typeName "word" then Some 2
  else if String.eqb typeName "pair" then Some 3
  else None.

Definition registry : ParameterTypeRegistry :=
  {| LookupByTypeName := lookup;
     defaultTransformer_Transform := defaultTransform |}.

Definition memory0 : memory :=
  {| objects := sampleObjects; arrays := fun _ => []; next := 4 |}.

Definition TextN (s : string) : astNode := mkAstNode textNode [] (mkToken s).
Definition ParameterN (typeName : string) : astNode :=
  mkAstNode parameterNode [TextN typeName] (mkToken EmptyString).
Definition OptionalN (children : list astNode) : astNode :=
  mkAstNode optionalNode children (mkToken EmptyString).
Definition AlternativeN (children : list astNode) : astNode :=
  mkAstNode alternativeNode children (mkToken EmptyString).
Definition AlternationN (children : list astNode) : astNode :=
  mkAstNode alternationNode children (mkToken EmptyString).
Definition ExpressionN (children : list astNode) : astNode :=
  mkAstNode expressionNode children (mkToken EmptyString).

Definition cukesSource := "I have {int} {word}(s) or {int}".
Definition cukes : astNode :=
  ExpressionN [TextN "I have "; ParameterN "int"; TextN " "; ParameterN "word";
              OptionalN [TextN "s"]; TextN " or "; ParameterN "int"].

Definition anySource := "{}".
Definition any : astNode := ExpressionN [ParameterN EmptyString].

Definition undefinedSource := "a {cuke}".
Definition undefined : astNode := ExpressionN [TextN "a "; ParameterN "cuke"].

Definition intOrXSource := "{int}/x".
Definition intOrX : astNode :=
  ExpressionN
    [AlternationN [AlternativeN [ParameterN "int"]; AlternativeN [TextN "x"]]].

Definition sampleParse (expression : string) : result astNode :=
  if String.eqb expression cukesSource then Ok cukes
  else if String.eqb expression anySource then Ok any
  else if String.eqb expression undefinedSource then Ok undefined
  else if String.eqb expression intOrXSource then Ok intOrX
  else Err (CucumberExpressionError "unsupported in this table").

Definition mustCompile (pattern : string) : outcome Regexp :=
  Returned (mkRegexp pattern).

Definition sampleDeAnonymized (p : ParameterType) (t : reflectType)
    (tr : Transformer) : result ParameterType :=
  Ok {| name := "anonymous"; regexps := regexps p;
        transform := tr; isAnonymous := false |}.

Definition compile (expression : string)
  : outcome (result CucumberExpression) * memory :=
  NewCucumberExpression nodeText checkName sampleParse mustCompile
    expression registry memory0.

Definition compiledAny : CucumberExpression :=
  {| source := anySource; parameterTypes := Some 4;
     treeRegexp := Some (NewTreeRegexp (mkRegexp "^(.*)$"));
     parameterTypeRegistry := registry |}.

Definition memoryAny : memory := snd (compile anySource).

(** The receiver as [NewCucumberExpression] first makes it, and the state
    the rewriting starts from. *)
Definition fresh (expression : string) : CucumberExpression :=
  {| source := expression; parameterTypes := None; treeRegexp := None;
     parameterTypeRegistry := registry |}.

Definition start (expression : string) : state :=
  (fresh expression, memory0).

Definition rewriteSample : astNode -> M string :=
  rewriteNodeToRegex nodeText checkName.

Definition cukesFragments : list string :=
  ["I have "; "((?:-?\d+)|(?:\d+))"; " "; "([^\s]+)"; "(?:s)?"; " or ";
   "((?:-?\d+)|(?:\d+))"].

Definition cukesPattern : string :=
  "^I have ((?:-?\d+)|(?:\d+)) ([^\s]+)(?:s)? or ((?:-?\d+)|(?:\d+))$".

Definition compiledCukes : CucumberExpression :=
  {| source := cukesSource; parameterTypes := Some 6;
     treeRegexp := Some (NewTreeRegexp (mkRegexp cukesPattern));
     parameterTypeRegistry := registry |}.

Definition memoryCukes : memory := snd (compile cukesSource).



(** Arguments for a pattern of one group that takes the whole text, as the
    pattern of [anySource] does: the argument is what the transform of the
    one parameter type makes of the text, and a panic of the transform is a
    panic of the builder. *)
Definition buildWhole (t : option TreeRegexp) (text : string)
    (parameterTypes : list pointer) (m : memory)
  : outcome (option (list value)) :=
  match parameterTypes with
  | [Some p] =>
      match transform (objects m p) [Some text] with
      | Returned v => Returned (Some [v])
      | Panicked e => Panicked e
      end
  | _ => Returned None
  end.

Definition matchSample :=
  Match sampleDeAnonymized value buildWhole.

(** A second memory with the same parameter types, other arrays and another
    free address. *)
Definition memoryOther : memory :=
  {| objects := sampleObjects; arrays := fun _ => [None]; next := 9 |}.

(** A registry without the type whose fragment has groups of its own. *)
Definition plainLookup (typeName : string) : pointer :=
  if String.eqb typeName EmptyString then Some 0
  else if String.eqb typeName "int" then Some 1
  else if String.eqb typeName "word" then Some 2
  else None.

Definition plainRegistry : ParameterTypeRegistry :=
  {| LookupByTypeName := plainLookup;
     defaultTransformer_Transform := defaultTransform |}.

(** A de-anonymization that knows the basic types only. *)
Definition strictDeAnonymized (p : ParameterType) (t : reflectType)
    (tr : Transformer) : result ParameterType :=
  match t with
  | namedType n => Err (CollaboratorError ("cannot convert to " ++ n))
  | _ => sampleDeAnonymized p t tr
  end.

(** A parameter whose name the check refuses, in an expression. *)
Definition badNameSource := "x {a.b}".
Definition badName : astNode := ParameterN "a.b".
Definition badNameTree : astNode := ExpressionN [TextN "x "; badName].

Definition parseMore (expression : string) : result astNode :=
  if String.eqb expression badNameSource then Ok badNameTree
  else sampleParse expression.



End Sample.

(** ** The statements the theorems compare the code with *)

(** The characters the specification lists for escaping:
    backslash, caret, the brackets, parentheses and braces, dollar, dot, bar,
    question mark, star and plus. *)
Definition metacharacters : list ascii :=
  ["\"; "^"; "["; "("; "{"; "$"; "."; "|"; "?"; "*"; "+"; "}"; ")"; "]"]%char.

(** [Escaped s t]: [t] is [s] with a backslash before every metacharacter and
    every other character as it is. *)
Inductive Escaped : string -> string -> Prop :=
| Escaped_empty : Escaped EmptyString EmptyString
| Escaped_meta (ch : ascii) (s t : string) :
    In ch metacharacters -> Escaped s t ->
    Escaped (String ch s) (String "\" (String ch t))
| Escaped_other (ch : ascii) (s t : string) :
    ~ In ch metacharacters -> Escaped s t ->
    Escaped (String ch s) (String ch t).

(** [rewritesAll rw nodes st fragments st']: the nodes rewrite successfully
    one after the other, each from the state the one before it left. *)
Inductive rewritesAll (rw : astNode -> M string)
  : list astNode -> state -> list string -> state -> Prop :=
| rewritesAll_nil (st : state) : rewritesAll rw [] st [] st
| rewritesAll_cons (node : astNode) (rest : list astNode) (st st1 st' : state)
    (s : string) (fragments : list string) :
    rw node st = (Ok s, st1) ->
    rewritesAll rw rest st1 fragments st' ->
    rewritesAll rw (node :: rest) st (s :: fragments) st'.

(** The fragments one after the other, with nothing between them. *)
Definition concatenation (fragments : list string) : string :=
  fold_right String.append EmptyString fragments.

(** What the loop of [rewriteNodesToRegex] adds to the builder from index [i]
    on: the delimiter before every fragment but the one at index 0. *)
Fixpoint joinFrom (i : nat) (delimiter : string) (fragments : list string)
  : string :=
  match fragments with
  | [] => EmptyString
  | s :: rest =>
      (if Nat.ltb 0 i then delimiter else EmptyString)
        ++ s ++ joinFrom (S i) delimiter rest
  end.

(** The entry the stored list holds for a Parameter node: the registry's
    pointer for the node's type name, which is not nil. *)
Definition entryFor (astNode_text : astNode -> string)
    (registry : ParameterTypeRegistry) (node : astNode) (entry : pointer)
  : Prop :=
  node_nodeType node = parameterNode /\
  entry = LookupByTypeName registry (astNode_text node) /\
  entry <> None.

(** A node has a direct child of the given kind. *)
Definition hasDirect (ty : nodeType) (node : astNode) : bool :=
  existsb (fun n => nodeType_eqb (node_nodeType n) ty) (node_nodes node).

(** An alternative passes the three checks of [rewriteAlternation]: it has
    children, none of them a Parameter node, one of them a Text node. *)
Definition passesChecks (alternative : astNode) : bool :=
  negb (Nat.eqb (length (node_nodes alternative)) 0)
  && negb (hasDirect parameterNode alternative)
  && hasDirect textNode alternative.

(** What a successful rewriting does to the receiver: the registry stays,
    and the stored list grows by the entries of the node's Parameter nodes. *)
Definition grows (astNode_text : astNode -> string)
    (node_params : list astNode) (st st' : state) : Prop :=
  parameterTypeRegistry (fst st') = parameterTypeRegistry (fst st) /\
  exists entries : list pointer,
    elems (snd st') (parameterTypes (fst st'))
    = (elems (snd st) (parameterTypes (fst st)) ++ entries)%list /\
    Forall2 (entryFor astNode_text (parameterTypeRegistry (fst st)))
      node_params entries.

(** [failsUnder text check registry node]: whatever the state, with that
    registry the node does not rewrite. *)
Definition failsUnder (astNode_text : astNode -> string)
    (CheckParameterTypeName : string -> option error)
    (registry : ParameterTypeRegistry) (node : astNode) : Prop :=
  forall st : state,
    parameterTypeRegistry (fst st) = registry ->
    exists err st',
      rewriteNodeToRegex astNode_text CheckParameterTypeName node st
      = (Err err, st').

(** The slice refers to an array that has been allocated. *)
Definition allocated (m : memory) (s : slice) : Prop :=
  match s with
  | None => True
  | Some l => l < next m
  end.

(** The stored list of a compiled expression in memory: its array is
    allocated and so are the parameter types its entries point to. *)
Definition wellStored (m : memory) (s : slice) : Prop :=
  allocated m s /\
  forall (i : nat) (p : loc), nth_error (elems m s) i = Some (Some p) ->
                              p < next m.

(** The parameter types of the registry are objects in memory. *)
Definition registryAllocated (registry : ParameterTypeRegistry) (m : memory)
  : Prop :=
  forall (typeName : string) (p : loc),
    LookupByTypeName registry typeName = Some p -> p < next m.

(** The six messages of the rewriter, each with the verb the source
    expression takes. *)
Definition grammarMessages : list string :=
  [alternativesMayNotBeEmpty; parameterTypesCanNotBeAlternative;
   parameterTypesCanNotBeOptional;
   alternativeMayNotExclusivelyContainOptionals; couldNotRewrite;
   optionalMayNotBeEmpty].

(** What every run of the rewriter keeps, whether it succeeds or fails: the
    source, the registry and the tree regexp of the receiver and the parameter
    types in memory; the stored list keeps its entries and may have more after
    them.  Nothing is said of the arrays behind the slices: [append] may write
    into the array the stored list already has. *)
Definition keeps (st st' : state) : Prop :=
  source (fst st') = source (fst st) /\
  parameterTypeRegistry (fst st') = parameterTypeRegistry (fst st) /\
  treeRegexp (fst st') = treeRegexp (fst st) /\
  (forall l, objects (snd st') l = objects (snd st) l) /\
  exists entries : list pointer,
    elems (snd st') (parameterTypes (fst st'))
    = (elems (snd st) (parameterTypes (fst st)) ++ entries)%list.

(** The errors of the rewriter: one of its six messages with the source of
    the receiver in it, the error of the name check for one of the node's
    Parameter nodes, or the undefined-type error for one whose name passes the
    check and is not in the registry. *)
Definition rewriterError (astNode_text : astNode -> string)
    (CheckParameterTypeName : string -> option error)
    (c : CucumberExpression) (node : astNode) (e : error) : Prop :=
  (exists message,
      In message grammarMessages /\
      e = NewCucumberExpressionError (Sprintf message (source c))) \/
  (exists n,
      In n (parameterNodes node) /\
      CheckParameterTypeName (astNode_text n) = Some e) \/
  (exists n,
      In n (parameterNodes node) /\
      CheckParameterTypeName (astNode_text n) = None /\
      LookupByTypeName (parameterTypeRegistry c) (astNode_text n) = None /\
      e = NewUndefinedParameterTypeError (astNode_text n)).

(** The trees the rewriter takes, read off its checks: a Parameter node's
    name passes the check and is in the registry; an Optional has no direct
    Parameter child and a direct Text child; every alternative of an
    Alternation passes the three checks; no node is of an unknown kind; and
    the children the rewriter visits are taken in turn. *)
Fixpoint accepts (astNode_text : astNode -> string)
    (CheckParameterTypeName : string -> option error)
    (registry : ParameterTypeRegistry) (node : astNode) : bool :=
  match node with
  | mkAstNode ty children tok =>
      match ty with
      | textNode => true
      | parameterNode =>
          match CheckParameterTypeName (astNode_text node) with
          | Some _ => false
          | None =>
              match LookupByTypeName registry (astNode_text node) with
              | Some _ => true
              | None => false
              end
          end
      | optionalNode =>
          negb (hasDirect parameterNode node) && hasDirect textNode node
          && forallb (accepts astNode_text CheckParameterTypeName registry)
               children
      | alternationNode =>
          forallb passesChecks children
          && forallb (accepts astNode_text CheckParameterTypeName registry)
               children
      | alternativeNode | expressionNode =>
          forallb (accepts astNode_text CheckParameterTypeName registry)
            children
      | unknownNode => false
      end
  end.

(** With the registry [registry], the node rewrites when it is accepted and
    fails when it is not, whatever else the state holds. *)
Definition decidedBy (astNode_text : astNode -> string)
    (CheckParameterTypeName : string -> option error)
    (registry : ParameterTypeRegistry) (node : astNode) : Prop :=
  forall st : state,
    parameterTypeRegistry (fst st) = registry ->
    if accepts astNode_text CheckParameterTypeName registry node
    then exists out st',
        rewriteNodeToRegex astNode_text CheckParameterTypeName node st
        = (Ok out, st')
    else exists e st',
        rewriteNodeToRegex astNode_text CheckParameterTypeName node st
        = (Err e, st').

(** Two states the rewriter cannot tell apart: the same source, the same
    registry and the same parameter types; the stored lists, the arrays and
    the free addresses may differ. *)
Definition alike (st1 st2 : state) : Prop :=
  source (fst st1) = source (fst st2) /\
  parameterTypeRegistry (fst st1) = parameterTypeRegistry (fst st2) /\
  forall l, objects (snd st1) l = objects (snd st2) l.

(** Two constructions end alike: with the same error, the same panic, or
    with compiled expressions of the same source, registry, tree regexp and
    stored entries. *)
Definition sameConstruction
    (r1 r2 : outcome (result CucumberExpression) * memory) : Prop :=
  match fst r1, fst r2 with
  | Returned (Ok c1), Returned (Ok c2) =>
      source c1 = source c2 /\
      parameterTypeRegistry c1 = parameterTypeRegistry c2 /\
      treeRegexp c1 = treeRegexp c2 /\
      elems (snd r1) (parameterTypes c1) = elems (snd r2) (parameterTypes c2)
  | Returned (Err e1), Returned (Err e2) => e1 = e2
  | Panicked v1, Panicked v2 => v1 = v2
  | _, _ => False
  end.

(** The number of metacharacters in a text. *)
Fixpoint metacharacterCount (s : string) : nat :=
  match s with
  | EmptyString => 0
  | String ch rest =>
      (if existsb (Ascii.eqb ch) metacharacters then 1 else 0)
      + metacharacterCount rest
  end.

(** A text with no metacharacter in it. *)
Definition plainText (s : string) : Prop :=
  forall ch, In ch (list_ascii_of_string s) -> ~ In ch metacharacters.

(** A piece of a pattern that takes the scanner from its normal state back
    to it, with [k] capturing groups on the way: [NumSubexp] gives [Some k]
    for it. *)
Definition closedWith (pattern : string) (k : nat) : Prop :=
  scan sNormal pattern = (sNormal, k).

(** The capturing groups an entry of the stored list stands for: the one
    around its type's fragments and those of the fragments. *)
Definition groupsOfEntry (m : memory) (entry : pointer) : nat :=
  match entry with
  | Some p =>
      1 + list_sum (map groupsIn (map Regexp_String (regexps (objects m p))))
  | None => 0
  end.

(** Every fragment of every type of the registry is a closed fragment. *)
Definition closedTypes (registry : ParameterTypeRegistry) (m : memory)
  : Prop :=
  forall (typeName : string) (p : loc),
    LookupByTypeName registry typeName = Some p ->
    Forall closedFragment (map Regexp_String (regexps (objects m p))).

(** No fragment of a type of the registry has a capturing group of its
    own. *)
Definition groupFreeTypes (registry : ParameterTypeRegistry) (m : memory)
  : Prop :=
  forall (typeName : string) (p : loc),
    LookupByTypeName registry typeName = Some p ->
    Forall (fun f => NumSubexp f = Some 0)
      (map Regexp_String (regexps (objects m p))).

(** A successful rewriting whose pattern has one capturing group for every
    entry it added, and the groups of the entries' fragments. *)
Definition counted (st st' : state) (out : string) : Prop :=
  exists entries : list pointer,
    elems (snd st') (parameterTypes (fst st'))
    = (elems (snd st) (parameterTypes (fst st)) ++ entries)%list /\
    (forall e, In e entries ->
               exists typeName,
                 e = LookupByTypeName (parameterTypeRegistry (fst st)) typeName
                 /\ e <> None) /\
    closedWith out (list_sum (map (groupsOfEntry (snd st)) entries)).

(** * Theorems *)

(** ** Text nodes *)

Lemma escapeRegexp_spec (ch : ascii) :
  escapeRegexp ch = true <-> In ch metacharacters.
Proof.
  unfold escapeRegexp. rewrite existsb_exists. split.
  - intros [x [Hin Heq]]. apply Ascii.eqb_eq in Heq. subst x. exact Hin.
  - intros Hin. exists ch. split; [exact Hin | apply Ascii.eqb_refl].
Qed.

Lemma processEscapes_Escaped (s : string) : Escaped s (processEscapes s).
Proof.
  induction s as [| ch s IH]; simpl.
  - constructor.
  - destruct (escapeRegexp ch) eqn:E.
    + apply Escaped_meta; [apply escapeRegexp_spec; exact E | exact IH].
    + apply Escaped_other; [| exact IH].
      intros Hin. apply escapeRegexp_spec in Hin. congruence.
Qed.

Lemma Escaped_functional (s t t' : string) :
  Escaped s t -> Escaped s t' -> t = t'.
Proof.
  intros H. revert t'.
  induction H; intros t' H'; inversion H'; subst;
    try reflexivity; try contradiction; f_equal; auto; f_equal; auto.
Qed.

(** C3.  Rewriting a Text node never fails, leaves the receiver and memory as
    they are, and returns the node's text with a backslash before every
    character of the set \ ^ [ ( { $ . | ? * + } ) ] and every other
    character unchanged. *)
Theorem text_node_rewrites_to_escaped_text :
  forall (astNode_text : astNode -> string)
         (CheckParameterTypeName : string -> option error)
         (children : list astNode) (tok : token) (st : state),
  exists out : string,
    rewriteNodeToRegex astNode_text CheckParameterTypeName
      (mkAstNode textNode children tok) st = (Ok out, st)
    /\ Escaped (text tok) out.
Proof.
  intros. exists (processEscapes (text tok)). split.
  - reflexivity.
  - apply processEscapes_Escaped.
Qed.

(** ** The Parameter nodes of a tree the parser gives *)

Lemma flat_map_no_parameter (children : list astNode) :
  forallb (fun n => match allParameterNodes n with
                    | [] => true
                    | _ => false
                    end) children = true ->
  flat_map allParameterNodes children = [].
Proof.
  induction children as [| n l IH]; simpl; intros H; [reflexivity |].
  apply andb_prop in H. destruct H as [Hn Hl].
  destruct (allParameterNodes n); [| discriminate]. apply IH. exact Hl.
Qed.

Lemma flat_map_parameterNodes_all (children : list astNode) :
  Forall (fun n => leavesHoldNoParameter n = true ->
                   parameterNodes n = allParameterNodes n) children ->
  forallb leavesHoldNoParameter children = true ->
  flat_map parameterNodes children = flat_map allParameterNodes children.
Proof.
  induction 1 as [| n l Hn Hl IH]; simpl; intros H; [reflexivity |].
  apply andb_prop in H. destruct H as [H1 H2].
  rewrite Hn, IH by assumption. reflexivity.
Qed.

(** Where nothing of kind Parameter lies below a Text or Parameter node, the
    Parameter nodes the rewriter visits are all the Parameter nodes. *)
Lemma parameterNodes_all (node : astNode) :
  leavesHoldNoParameter node = true ->
  parameterNodes node = allParameterNodes node.
Proof.
  induction node as [ty children tok IH] using astNode_forall_ind.
  intros H. destruct ty; simpl in H |- *;
    try (apply flat_map_parameterNodes_all; assumption).
  - symmetry. apply flat_map_no_parameter. exact H.
  - rewrite flat_map_no_parameter by exact H. reflexivity.
Qed.

(** ** Strings and the state monad *)

Lemma append_empty_r (s : string) : s ++ EmptyString = s.
Proof. induction s; simpl; congruence. Qed.

Lemma append_assoc (s t u : string) : (s ++ t) ++ u = s ++ t ++ u.
Proof. induction s; simpl; congruence. Qed.

Lemma joinFrom_no_delimiter (i : nat) (fragments : list string) :
  joinFrom i EmptyString fragments = concatenation fragments.
Proof.
  revert i. induction fragments as [| s rest IH]; intros i; simpl.
  - reflexivity.
  - rewrite IH. destruct (Nat.ltb 0 i); reflexivity.
Qed.

Lemma joinFrom_succ (delimiter : string) (rest : list string) :
  forall (i : nat) (s : string),
    s ++ joinFrom (S i) delimiter rest = String.concat delimiter (s :: rest).
Proof.
  induction rest as [| s' rest IH]; intros i s.
  - apply append_empty_r.
  - change (joinFrom (S i) delimiter (s' :: rest))
      with (delimiter ++ s' ++ joinFrom (S (S i)) delimiter rest).
    rewrite IH. reflexivity.
Qed.

Lemma joinFrom_Join (delimiter : string) (fragments : list string) :
  joinFrom 0 delimiter fragments = Join fragments delimiter.
Proof.
  unfold Join. destruct fragments as [| s rest]; [reflexivity |].
  change (joinFrom 0 delimiter (s :: rest))
    with (s ++ joinFrom 1 delimiter rest).
  apply joinFrom_succ.
Qed.

Lemma bind_Ok {A B : Type} (x : M A) (f : A -> M B) (st st' : state) (b : B) :
  bind x f st = (Ok b, st') ->
  exists a st1, x st = (Ok a, st1) /\ f a st1 = (Ok b, st').
Proof.
  unfold bind. destruct (x st) as [[a | e] st1]; intros H.
  - exists a, st1. split; [reflexivity | exact H].
  - discriminate.
Qed.

Lemma check_Ok (e : option error) (st st' : state) (u : unit) :
  check e st = (Ok u, st') -> e = None /\ st' = st.
Proof.
  destruct e; simpl; unfold fail, ret; intros H; inversion H; auto.
Qed.

(** ** The loop over the children *)

Section Loop.

Variable recur : astNode -> M string.

Lemma rewriteNodesLoop_complete (nodes : list astNode) (st st' : state)
    (fragments : list string) :
  rewritesAll recur nodes st fragments st' ->
  forall (i : nat) (delimiter builder : string),
    rewriteNodesLoop recur nodes i delimiter builder st
    = (Ok (builder ++ joinFrom i delimiter fragments), st').
Proof.
  induction 1 as [st | node rest st st1 st' s fs Hs Hrest IH];
    intros i delimiter builder; simpl.
  - unfold ret. rewrite append_empty_r. reflexivity.
  - unfold bind. rewrite Hs, IH.
    do 2 f_equal. destruct (Nat.ltb 0 i); simpl;
      repeat rewrite append_assoc; reflexivity.
Qed.

Lemma rewriteNodesLoop_sound (nodes : list astNode) :
  forall (i : nat) (delimiter builder out : string) (st st' : state),
    rewriteNodesLoop recur nodes i delimiter builder st = (Ok out, st') ->
    exists fragments,
      rewritesAll recur nodes st fragments st' /\
      out = builder ++ joinFrom i delimiter fragments.
Proof.
  induction nodes as [| node rest IH]; intros i delimiter builder out st st' H;
    simpl in H.
  - unfold ret in H. inversion H; subst. exists []. split.
    + constructor.
    + simpl. symmetry. apply append_empty_r.
  - apply bind_Ok in H. destruct H as [s [st1 [Hs Hrest]]].
    apply IH in Hrest. destruct Hrest as [fs [Hall Hout]].
    exists (s :: fs). split.
    + econstructor; eassumption.
    + subst out. simpl. destruct (Nat.ltb 0 i); simpl;
        repeat rewrite append_assoc; reflexivity.
Qed.

Lemma rewriteNodesToRegex_complete (nodes : list astNode)
    (delimiter prefix suffix : string) (st st' : state)
    (fragments : list string) :
  rewritesAll recur nodes st fragments st' ->
  rewriteNodesToRegex recur nodes delimiter prefix suffix st
  = (Ok (prefix ++ Join fragments delimiter ++ suffix), st').
Proof.
  intros H. unfold rewriteNodesToRegex, bind.
  rewrite (rewriteNodesLoop_complete _ _ _ _ H). unfold ret.
  rewrite joinFrom_Join, append_assoc. reflexivity.
Qed.

Lemma rewriteNodesToRegex_sound (nodes : list astNode)
    (delimiter prefix suffix out : string) (st st' : state) :
  rewriteNodesToRegex recur nodes delimiter prefix suffix st
  = (Ok out, st') ->
  exists fragments,
    rewritesAll recur nodes st fragments st' /\
    out = prefix ++ Join fragments delimiter ++ suffix.
Proof.
  intros H. unfold rewriteNodesToRegex in H. apply bind_Ok in H.
  destruct H as [b [st1 [Hloop Hret]]]. unfold ret in Hret.
  inversion Hret; subst. apply rewriteNodesLoop_sound in Hloop.
  destruct Hloop as [fs [Hall Hb]]. exists fs. split; [exact Hall |].
  subst b. rewrite joinFrom_Join, append_assoc. reflexivity.
Qed.

End Loop.

(** ** The rewriter, node by node *)

Section RewriterFacts.

Variable astNode_text : astNode -> string.
Variable CheckParameterTypeName : string -> option error.

Local Notation "'rw'" :=
  (rewriteNodeToRegex astNode_text CheckParameterTypeName).

Lemma rewriteNodeToRegex_unfold (node : astNode) :
  rw node
  = rewriteNode astNode_text CheckParameterTypeName rw node.
Proof. destruct node; reflexivity. Qed.

Lemma Join_no_delimiter (fragments : list string) :
  Join fragments EmptyString = concatenation fragments.
Proof.
  rewrite <- joinFrom_Join. apply joinFrom_no_delimiter.
Qed.

(** C5.  When the children of an Expression node rewrite successfully, one
    after the other, the node rewrites to the character ^, the children's
    fragments in order with nothing between them, and the character $. *)
Theorem expression_node_is_anchored_concatenation :
  forall (children : list astNode) (tok : token) (st st' : state)
         (fragments : list string),
    rewritesAll rw children st fragments st' ->
    rw (mkAstNode expressionNode children tok) st
    = (Ok ("^" ++ concatenation fragments ++ "$"), st').
Proof.
  intros children tok st st' fragments H.
  change (rw (mkAstNode expressionNode children tok))
    with (rewriteNodesToRegex rw children EmptyString "^" "$").
  rewrite (rewriteNodesToRegex_complete _ _ _ _ _ _ _ _ H).
  rewrite Join_no_delimiter. reflexivity.
Qed.

(** *** Successful rewriting and the stored list *)

Lemma container_Ok (ty : nodeType) (children : list astNode) (tok : token)
    (st st' : state) (out : string) :
  ty <> textNode -> ty <> parameterNode ->
  rw (mkAstNode ty children tok) st = (Ok out, st') ->
  exists delimiter prefix suffix,
    rewriteNodesToRegex rw children delimiter prefix suffix st
    = (Ok out, st').
Proof.
  intros Htext Hparam H. rewrite rewriteNodeToRegex_unfold in H.
  destruct st as [c m]. destruct ty; try congruence;
    unfold rewriteNode in H; cbn [node_nodeType] in H.
  - unfold rewriteOptional in H. cbn [node_nodes] in H.
    apply bind_Ok in H. destruct H as [u [st1 [H1 H]]].
    apply check_Ok in H1. destruct H1 as [_ ->].
    apply bind_Ok in H. destruct H as [u' [st2 [H2 H]]].
    apply check_Ok in H2. destruct H2 as [_ ->]. eauto.
  - unfold rewriteAlternation in H. cbn [node_nodes] in H.
    apply bind_Ok in H. destruct H as [u [st1 [H1 H]]].
    apply check_Ok in H1. destruct H1 as [_ ->]. eauto.
  - unfold rewriteAlternative in H. cbn [node_nodes] in H. eauto.
  - unfold rewriteExpression in H. cbn [node_nodes] in H. eauto.
  - discriminate.
Qed.

Lemma elems_append (s : slice) (p : pointer) (m : memory) :
  elems (snd (append s p m)) (fst (append s p m)) = (elems m s ++ [p])%list.
Proof.
  unfold append, allocArray, elems at 1. simpl. unfold update.
  rewrite Nat.eqb_refl. reflexivity.
Qed.

Lemma rewriteParameter_Ok (node : astNode) (c c' : CucumberExpression)
    (m m' : memory) (out : string) :
  rewriteParameter astNode_text CheckParameterTypeName node (c, m)
  = (Ok out, (c', m')) ->
  exists p : loc,
    CheckParameterTypeName (astNode_text node) = None /\
    LookupByTypeName (parameterTypeRegistry c) (astNode_text node) = Some p /\
    out = buildCaptureRegexp (regexps (objects m p)) /\
    c' = set_parameterTypes c (fst (append (parameterTypes c) (Some p) m)) /\
    m' = snd (append (parameterTypes c) (Some p) m).
Proof.
  unfold rewriteParameter.
  destruct (CheckParameterTypeName (astNode_text node)); [discriminate |].
  destruct (LookupByTypeName (parameterTypeRegistry c) (astNode_text node))
    as [p |]; [| discriminate].
  intros H. exists p. unfold append, allocArray in *. simpl in *.
  inversion H. subst. auto.
Qed.

Lemma grows_children (children : list astNode) (st st' : state)
    (fragments : list string) :
  Forall (fun node => forall st out st',
              rw node st = (Ok out, st') ->
              grows astNode_text (parameterNodes node) st st') children ->
  rewritesAll rw children st fragments st' ->
  grows astNode_text (flat_map parameterNodes children) st st'.
Proof.
  intros Hall H.
  induction H as [st | node rest st st1 st' s fs Hs Hrest IH].
  - split; [reflexivity |]. exists []. split.
    + symmetry. apply app_nil_r.
    + constructor.
  - inversion Hall as [| n l Hnode Hl]; subst.
    destruct (Hnode _ _ _ Hs) as [Hreg [es [Hes Hent]]].
    destruct (IH Hl) as [Hreg' [es' [Hes' Hent']]].
    split; [congruence |].
    exists (es ++ es')%list. split.
    + rewrite Hes', Hes. symmetry. apply app_assoc.
    + simpl. apply Forall2_app; [exact Hent |].
      rewrite <- Hreg. exact Hent'.
Qed.

Lemma rewrite_grows (node : astNode) :
  forall (st : state) (out : string) (st' : state),
    rw node st = (Ok out, st') ->
    grows astNode_text (parameterNodes node) st st'.
Proof.
  induction node as [ty children tok IH] using astNode_forall_ind.
  intros st out st' H.
  assert (Hcontainer :
            ty <> textNode -> ty <> parameterNode ->
            grows astNode_text (flat_map parameterNodes children) st st').
  { intros Ht Hp.
    destruct (container_Ok _ _ _ _ _ _ Ht Hp H) as [d [p [s Hn]]].
    apply rewriteNodesToRegex_sound in Hn. destruct Hn as [fs [Hfs _]].
    eapply grows_children; eassumption. }
  destruct ty; try (simpl; apply Hcontainer; discriminate).
  - (* Text *)
    rewrite rewriteNodeToRegex_unfold in H. simpl in H. unfold ret in H.
    inversion H; subst. split; [reflexivity |]. exists []. split.
    + symmetry. apply app_nil_r.
    + constructor.
  - (* Parameter *)
    rewrite rewriteNodeToRegex_unfold in H. unfold rewriteNode in H.
    cbn [node_nodeType] in H. destruct st as [c m]. destruct st' as [c' m'].
    apply rewriteParameter_Ok in H.
    destruct H as [p [Hcheck [Hlookup [Hout [Hc Hm]]]]]. subst c' m'.
    split; [reflexivity |]. exists [Some p]. split.
    + apply elems_append.
    + simpl. constructor; [| constructor].
      repeat split; [symmetry; exact Hlookup | discriminate].
Qed.

(** *** Failures *)

Lemma rewriteParameter_undefined (node : astNode) (c : CucumberExpression)
    (m : memory) :
  CheckParameterTypeName (astNode_text node) = None ->
  LookupByTypeName (parameterTypeRegistry c) (astNode_text node) = None ->
  rewriteParameter astNode_text CheckParameterTypeName node (c, m)
  = (Err (NewUndefinedParameterTypeError (astNode_text node)), (c, m)).
Proof.
  intros Hcheck Hlookup. unfold rewriteParameter.
  rewrite Hcheck, Hlookup. reflexivity.
Qed.

Lemma bind_Err {A B : Type} (x : M A) (f : A -> M B) (st : state) :
  (exists err st', x st = (Err err, st')) ->
  exists err st', bind x f st = (Err err, st').
Proof.
  intros [err [st' H]]. unfold bind. rewrite H. eauto.
Qed.

Lemma bind_Err_either {A B : Type} (x : M A) (f : A -> M B) (st : state) :
  (forall a st1, x st = (Ok a, st1) ->
                 exists err st', f a st1 = (Err err, st')) ->
  exists err st', bind x f st = (Err err, st').
Proof.
  intros H. unfold bind. destruct (x st) as [[a | e] st1]; eauto.
Qed.

Lemma loop_fails (registry : ParameterTypeRegistry) (node : astNode)
    (children : list astNode) :
  Forall (fun child => In node (parameterNodes child) ->
                       failsUnder astNode_text CheckParameterTypeName
                         registry child) children ->
  In node (flat_map parameterNodes children) ->
  forall (i : nat) (delimiter builder : string) (st : state),
    parameterTypeRegistry (fst st) = registry ->
    exists err st',
      rewriteNodesLoop rw children i delimiter builder st = (Err err, st').
Proof.
  induction 1 as [| child rest Hchild Hrest IH]; intros Hin; simpl in Hin.
  - contradiction.
  - intros i delimiter builder st Hreg. simpl.
    apply in_app_or in Hin. destruct Hin as [Hin | Hin].
    + apply bind_Err. apply Hchild; assumption.
    + apply bind_Err_either. intros s st1 Hs. apply IH; [exact Hin |].
      apply rewrite_grows in Hs. destruct Hs as [Hs _]. congruence.
Qed.

Lemma contains_fails (registry : ParameterTypeRegistry) (node : astNode) :
  failsUnder astNode_text CheckParameterTypeName registry node ->
  forall ast : astNode,
    In node (parameterNodes ast) ->
    failsUnder astNode_text CheckParameterTypeName registry ast.
Proof.
  intros Hnode ast.
  induction ast as [ty children tok IH] using astNode_forall_ind.
  intros Hin.
  assert (Hloop :
            In node (flat_map parameterNodes children) ->
            forall (delimiter prefix suffix : string) (st : state),
              parameterTypeRegistry (fst st) = registry ->
              exists err st',
                rewriteNodesToRegex rw children delimiter prefix suffix st
                = (Err err, st')).
  { intros Hin' delimiter prefix suffix st Hreg. unfold rewriteNodesToRegex.
    apply bind_Err. eapply loop_fails; eassumption. }
  intros st Hreg. rewrite rewriteNodeToRegex_unfold. unfold rewriteNode.
  cbn [node_nodeType]. destruct st as [c m]. destruct ty; simpl in Hin.
  - contradiction.
  - unfold rewriteOptional. cbn [node_nodes].
    apply bind_Err_either. intros u st1 H1. apply check_Ok in H1.
    destruct H1 as [_ ->].
    apply bind_Err_either. intros u' st2 H2. apply check_Ok in H2.
    destruct H2 as [_ ->]. apply Hloop; assumption.
  - unfold rewriteAlternation. cbn [node_nodes].
    apply bind_Err_either. intros u st1 H1. apply check_Ok in H1.
    destruct H1 as [_ ->]. apply Hloop; assumption.
  - unfold rewriteAlternative. cbn [node_nodes]. apply Hloop; assumption.
  - destruct Hin as [<- | []].
    specialize (Hnode (c, m) Hreg). rewrite rewriteNodeToRegex_unfold in Hnode.
    exact Hnode.
  - unfold rewriteExpression. cbn [node_nodes]. apply Hloop; assumption.
  - eauto.
Qed.

(** *** Construction *)

Variable parse : string -> result astNode.
Variable MustCompile : string -> outcome Regexp.

Local Notation "'New'" :=
  (NewCucumberExpression astNode_text CheckParameterTypeName parse
     MustCompile).

(** C1.  When an expression compiles, the stored parameter-type list holds
    one entry for every Parameter node of the tree, in the left-to-right
    order of the nodes, and each entry is the pointer the registry gives
    for the node's type name.  The Parameter nodes are those the rewriter
    comes to, with Text and Parameter nodes as leaves; in a tree where no
    Parameter node lies below a leaf they are all the nodes of that kind. *)
Theorem stored_parameter_types_follow_parameter_nodes :
  forall (expression : string) (registry : ParameterTypeRegistry)
         (m m' : memory) (ast : astNode) (c : CucumberExpression),
    parse expression = Ok ast ->
    New expression registry m = (Returned (Ok c), m') ->
    Forall2 (entryFor astNode_text registry)
      (parameterNodes ast) (elems m' (parameterTypes c)) /\
    (leavesHoldNoParameter ast = true ->
     Forall2 (entryFor astNode_text registry)
       (allParameterNodes ast) (elems m' (parameterTypes c))).
Proof.
  intros expression registry m m' ast c Hparse H.
  assert (Hvisited : Forall2 (entryFor astNode_text registry)
                       (parameterNodes ast) (elems m' (parameterTypes c)));
    [| split; [exact Hvisited |];
       intros Hshape; rewrite <- (parameterNodes_all ast Hshape);
       exact Hvisited].
  unfold NewCucumberExpression in H. rewrite Hparse in H.
  match type of H with
  | context [rw ast ?st] => destruct (rw ast st) as [[out | e] [c1 m1]] eqn:E
  end; [| discriminate].
  destruct (MustCompile out); [| discriminate].
  inversion H; subst. apply rewrite_grows in E.
  destruct E as [_ [entries [Hentries Hall]]]. simpl in Hentries, Hall.
  simpl. rewrite Hentries. exact Hall.
Qed.

(** C7.  A Parameter node whose type name passes the name check and is not
    in the registry rewrites to an UndefinedParameterTypeError, and an
    expression whose tree holds such a node does not compile: construction
    returns an error and no compiled expression. *)
Theorem undefined_parameter_type_fails_construction :
  forall (registry : ParameterTypeRegistry) (node : astNode),
    node_nodeType node = parameterNode ->
    CheckParameterTypeName (astNode_text node) = None ->
    LookupByTypeName registry (astNode_text node) = None ->
    (forall (c : CucumberExpression) (m : memory),
        parameterTypeRegistry c = registry ->
        rw node (c, m)
        = (Err (NewUndefinedParameterTypeError (astNode_text node)), (c, m)))
    /\
    (forall (expression : string) (ast : astNode) (m : memory),
        parse expression = Ok ast ->
        In node (parameterNodes ast) ->
        exists err m',
          New expression registry m = (Returned (Err err), m')).
Proof.
  intros registry node Hkind Hcheck Hlookup.
  assert (Hnode : forall c m,
             parameterTypeRegistry c = registry ->
             rw node (c, m)
             = (Err (NewUndefinedParameterTypeError (astNode_text node)),
                (c, m))).
  { intros c m Hreg. rewrite rewriteNodeToRegex_unfold. unfold rewriteNode.
    rewrite Hkind. apply rewriteParameter_undefined; [exact Hcheck |].
    rewrite Hreg. exact Hlookup. }
  split; [exact Hnode |].
  intros expression ast m Hparse Hin.
  assert (Hfails :
            failsUnder astNode_text CheckParameterTypeName registry node).
  { intros [c0 m0] Hreg. simpl in Hreg. rewrite (Hnode c0 m0 Hreg). eauto. }
  unfold NewCucumberExpression. rewrite Hparse.
  match goal with
  | |- context [rw ast ?st] =>
      destruct (contains_fails registry node Hfails ast Hin st eq_refl)
        as [err [[c' m'] E]]; rewrite E
  end.
  eauto.
Qed.

(** *** The checks of an alternation *)

Lemma checkAlternatives_passed (c : CucumberExpression)
    (passed rest : list astNode) :
  forallb passesChecks passed = true ->
  checkAlternatives c (passed ++ rest) = checkAlternatives c rest.
Proof.
  induction passed as [| alternative passed IH]; intros H; simpl in *.
  - reflexivity.
  - apply andb_prop in H. destruct H as [Hfirst Hpassed].
    unfold passesChecks in Hfirst.
    apply andb_prop in Hfirst. destruct Hfirst as [Hfirst Htext].
    apply andb_prop in Hfirst. destruct Hfirst as [Hlen Hparam].
    apply negb_true_iff in Hlen. apply negb_true_iff in Hparam.
    rewrite Hlen. unfold assertNoParameters, assertNotEmpty.
    unfold hasDirect in Hparam, Htext. rewrite Hparam, Htext.
    apply IH. exact Hpassed.
Qed.




(** *** What construction leaves in memory *)

Lemma rewriteNodeToRegex_allocates (node : astNode) :
  forall (st : state) (out : string) (st' : state),
    rw node st = (Ok out, st') ->
    next (snd st) <= next (snd st') /\
    (allocated (snd st) (parameterTypes (fst st)) ->
     allocated (snd st') (parameterTypes (fst st'))).
Proof.
  induction node as [ty children tok IH] using astNode_forall_ind.
  intros st out st' H.
  assert (Hcontainer :
            ty <> textNode -> ty <> parameterNode ->
            next (snd st) <= next (snd st') /\
            (allocated (snd st) (parameterTypes (fst st)) ->
             allocated (snd st') (parameterTypes (fst st')))).
  { intros Ht Hp.
    destruct (container_Ok _ _ _ _ _ _ Ht Hp H) as [d [p [s Hn]]].
    apply rewriteNodesToRegex_sound in Hn. destruct Hn as [fs [Hfs _]].
    clear H. induction Hfs as [st | node rest st st1 st' s' fs Hs Hrest IHrest].
    - split; [apply le_n | auto].
    - inversion IH as [| n l Hnode Hl]; subst.
      destruct (Hnode _ _ _ Hs) as [Hnext Halloc].
      destruct (IHrest Hl) as [Hnext' Halloc'].
      split; [lia | auto]. }
  destruct ty; try (apply Hcontainer; discriminate).
  - rewrite rewriteNodeToRegex_unfold in H. simpl in H. unfold ret in H.
    inversion H; subst. split; [apply le_n | auto].
  - rewrite rewriteNodeToRegex_unfold in H. unfold rewriteNode in H.
    cbn [node_nodeType] in H. destruct st as [c m]. destruct st' as [c' m'].
    apply rewriteParameter_Ok in H.
    destruct H as [p [_ [_ [_ [Hc Hm]]]]]. subst c' m'.
    unfold append, allocArray. simpl. split; [lia | intros _; lia].
Qed.

Lemma Forall2_entries {A B : Type} (R : A -> B -> Prop) (l : list A)
    (entries : list B) :
  Forall2 R l entries -> Forall (fun e => exists x, R x e) entries.
Proof.
  induction 1; constructor; eauto.
Qed.

(** A compiled expression is stored well: its list is an array in memory and
    its entries point to the parameter types of the registry. *)
Lemma NewCucumberExpression_wellStored (expression : string)
    (registry : ParameterTypeRegistry) (m m' : memory)
    (c : CucumberExpression) :
  registryAllocated registry m ->
  New expression registry m = (Returned (Ok c), m') ->
  wellStored m' (parameterTypes c).
Proof.
  intros Hreg H. unfold NewCucumberExpression in H.
  destruct (parse expression) as [ast | e]; [| discriminate].
  match type of H with
  | context [rw ast ?st] => destruct (rw ast st) as [[out | e] [c1 m1]] eqn:E
  end; [| discriminate].
  destruct (MustCompile out); [| discriminate].
  inversion H; subst. clear H.
  destruct (rewriteNodeToRegex_allocates _ _ _ _ E) as [Hnext Halloc].
  apply rewrite_grows in E. destruct E as [_ [entries [Hentries Hall]]].
  simpl in *. split; [exact (Halloc I) |].
  intros i p Hnth. rewrite Hentries in Hnth.
  apply nth_error_In in Hnth. apply Forall2_entries in Hall.
  rewrite Forall_forall in Hall. destruct (Hall _ Hnth) as [n [_ [Hp _]]].
  symmetry in Hp. apply Hreg in Hp. lia.
Qed.

End RewriterFacts.

(** ** Parameter nodes *)

Lemma buildCaptureRegexp_one (r : Regexp) :
  buildCaptureRegexp [r] = "(" ++ Regexp_String r ++ ")".
Proof. reflexivity. Qed.

Lemma buildCaptureRegexp_many (regexps : list Regexp) :
  1 < length regexps ->
  buildCaptureRegexp regexps
  = "(" ++ Join (map (fun f => "(?:" ++ f ++ ")")
                   (map Regexp_String regexps)) "|" ++ ")".
Proof.
  intros H. destruct regexps as [| r [| r' l]]; simpl in H; try lia.
  unfold buildCaptureRegexp. rewrite map_map. reflexivity.
Qed.

Section ParameterFacts.

Variable astNode_text : astNode -> string.
Variable CheckParameterTypeName : string -> option error.

Local Notation "'rw'" :=
  (rewriteNodeToRegex astNode_text CheckParameterTypeName).

(** C4, amended.  A Parameter node whose type name is valid and found in the
    registry rewrites to one capturing group wrapped around the type's
    fragments, whose text is emitted unchanged: (fragment) when there is one
    fragment, ((?:f1)|(?:f2)|...) when there are several. *)
Theorem parameter_node_emits_one_wrapping_group :
  forall (children : list astNode) (tok : token) (c : CucumberExpression)
         (m : memory) (p : loc),
    CheckParameterTypeName
      (astNode_text (mkAstNode parameterNode children tok)) = None ->
    LookupByTypeName (parameterTypeRegistry c)
      (astNode_text (mkAstNode parameterNode children tok)) = Some p ->
    exists (out : string) (st' : state),
      rw (mkAstNode parameterNode children tok) (c, m) = (Ok out, st') /\
      (forall f : string,
          map Regexp_String (regexps (objects m p)) = [f] ->
          out = "(" ++ f ++ ")") /\
      (1 < length (regexps (objects m p)) ->
       out = "(" ++ Join (map (fun f => "(?:" ++ f ++ ")")
                            (map Regexp_String (regexps (objects m p))))
                      "|" ++ ")").
Proof.
  intros children tok c m p Hcheck Hlookup.
  rewrite rewriteNodeToRegex_unfold. unfold rewriteNode.
  cbn [node_nodeType]. unfold rewriteParameter.
  rewrite Hcheck, Hlookup.
  unfold append, allocArray. cbn [objects].
  eexists. eexists. split; [reflexivity |]. split.
  - intros f Hf. destruct (regexps (objects m p)) as [| r [| r' l]];
      try discriminate.
    inversion Hf. reflexivity.
  - apply buildCaptureRegexp_many.
Qed.

End ParameterFacts.

(** ** Memory *)

Lemma update_same {A : Type} (f : loc -> A) (l : loc) (a : A) :
  update f l a l = a.
Proof. unfold update. rewrite Nat.eqb_refl. reflexivity. Qed.

Lemma update_other {A : Type} (f : loc -> A) (l l' : loc) (a : A) :
  l' <> l -> update f l a l' = f l'.
Proof.
  intros H. unfold update. apply Nat.eqb_neq in H. rewrite H. reflexivity.
Qed.

Lemma length_setNth (l : list pointer) (i : nat) (p : pointer) :
  length (setNth l i p) = length l.
Proof.
  revert i. induction l as [| x l IH]; intros [| i]; simpl; auto.
Qed.

Lemma nth_error_setNth_same (l : list pointer) (i : nat) (p : pointer) :
  i < length l -> nth_error (setNth l i p) i = Some p.
Proof.
  revert i. induction l as [| x l IH]; intros [| i] H; simpl in *;
    try lia; auto. apply IH. lia.
Qed.

Lemma nth_error_setNth_other (l : list pointer) (i j : nat) (p : pointer) :
  i <> j -> nth_error (setNth l i p) j = nth_error l j.
Proof.
  revert i j. induction l as [| x l IH]; intros [| i] [| j] H; simpl;
    try reflexivity; try congruence. apply IH. congruence.
Qed.

(** The working copy right after [make] and [copy]: a new array with the
    stored entries; nothing else has changed. *)
Lemma make_copy (m : memory) (s : slice) :
  allocated m s ->
  let a := fst (make (length (elems m s)) m) in
  let m2 := copy a s (snd (make (length (elems m s)) m)) in
  a = next m /\
  next m2 = S (next m) /\
  objects m2 = objects m /\
  arrays m2 a = elems m s /\
  (forall l, l <> a -> arrays m2 l = arrays m l).
Proof.
  intros Halloc. unfold make, allocArray, copy.
  cbn [fst snd objects next arrays].
  assert (Helems :
            elems {| objects := objects m;
                     arrays := update (arrays m) (next m)
                                 (repeat None (length (elems m s)));
                     next := S (next m) |} s = elems m s).
  { destruct s as [l |]; [| reflexivity]. simpl in *.
    apply update_other. lia. }
  rewrite Helems. repeat split.
  - rewrite !update_same, repeat_length, Nat.min_id.
    rewrite firstn_all, skipn_all2 by (rewrite repeat_length; lia).
    apply app_nil_r.
  - intros l Hl. rewrite !update_other by exact Hl. reflexivity.
Qed.

(** ** The loop of [Match] *)

Section MatchingFacts.

Variable deAnonymized :
  ParameterType -> reflectType -> Transformer -> result ParameterType.
Variable Argument : Type.
Variable BuildArguments :
  option TreeRegexp -> string -> list pointer -> memory ->
  outcome (option (list Argument)).

Variable c : CucumberExpression.
Variable typeHints : list reflectType.
Variable a : loc.

Local Notation "'loop'" := (matchLoop deAnonymized c typeHints a).

Ltac loop_cases H p v E :=
  simpl in H;
  match type of H with
  | context [nth_error ?l ?i] =>
      destruct (nth_error l i) as [[p |] |] eqn:E
  end;
  [ match type of H with
    | context [isAnonymous ?o] => destruct (isAnonymous o) eqn:?
    end;
    [ unfold deAnonymize in H;
      match type of H with
      | context [deAnonymized ?o ?t ?tr] =>
          destruct (deAnonymized o t tr) as [v |] eqn:?
      end;
      cbn [allocObject] in H
    | ]
  | | ].

(** The loop writes to the working copy and allocates new objects; what was
    in memory before stays, and so do the entries it has passed. *)
Lemma matchLoop_frame (n : nat) :
  forall (i : nat) (m : memory) (r : outcome (option error)) (m' : memory),
    loop n i m = (r, m') ->
    a < next m ->
    next m <= next m' /\
    (forall l, l < next m -> objects m' l = objects m l) /\
    (forall l, l <> a -> arrays m' l = arrays m l) /\
    (forall j, j < i -> nth_error (arrays m' a) j = nth_error (arrays m a) j).
Proof.
  induction n as [| n IH]; intros i m r m' H Ha.
  - simpl in H. inversion H; subst. auto.
  - loop_cases H p v E;
      try (inversion H; subst; auto; fail).
    + apply IH in H; [| simpl; lia].
      destruct H as [Hnext [Hobj [Harr Hnth]]].
      cbn [store next objects arrays] in *. repeat split.
      * lia.
      * intros l Hl. rewrite Hobj by lia. apply update_other. lia.
      * intros l Hl. rewrite Harr by exact Hl. apply update_other. exact Hl.
      * intros j Hj. rewrite Hnth by lia. rewrite update_same.
        apply nth_error_setNth_other. lia.
    + apply IH in H; [| exact Ha].
      destruct H as [Hnext [Hobj [Harr Hnth]]].
      repeat split; auto; intros j Hj; apply Hnth; lia.
Qed.

(** When the loop runs to its end, every anonymous entry from [i] on has
    been replaced by a new parameter type: the one [deAnonymize] makes of it
    with [hintOrDefault] of its position and the object-mapper transformer
    for that hint. *)
Lemma matchLoop_resolved (n : nat) :
  forall (i : nat) (m m' : memory),
    loop n i m = (Returned None, m') ->
    a < next m ->
    forall (j : nat) (p : loc),
      i <= j < i + n ->
      nth_error (arrays m a) j = Some (Some p) ->
      p < next m ->
      isAnonymous (objects m p) = true ->
      exists q : loc,
        nth_error (arrays m' a) j = Some (Some q) /\
        deAnonymized (objects m p) (hintOrDefault j typeHints)
          (objectMapperTransformer c (hintOrDefault j typeHints))
        = Ok (objects m' q).
Proof.
  induction n as [| n IH]; intros i m m' H Ha j p Hj Hnth Hp Hanon.
  - lia.
  - loop_cases H p0 v E; try discriminate.
    + (* an anonymous entry at [i], replaced *)
      destruct (Nat.eq_dec j i) as [-> | Hne].
      * rewrite Hnth in E. inversion E; subst p0.
        pose proof (matchLoop_frame _ _ _ _ _ H) as Hframe.
        cbn [store next objects arrays] in Hframe.
        destruct Hframe as [_ [Hobj [_ Hkeep]]]; [lia |].
        exists (next m). split.
        -- rewrite Hkeep by lia. rewrite update_same.
           apply nth_error_setNth_same.
           apply nth_error_Some. congruence.
        -- rewrite Hobj by lia. rewrite update_same. assumption.
      * pose proof (IH _ _ _ H) as IH'.
        cbn [store next objects arrays] in IH'.
        specialize (IH' ltac:(lia) j p ltac:(lia)).
        rewrite update_same, nth_error_setNth_other in IH' by lia.
        rewrite !update_other in IH' by lia.
        apply IH'; auto.
    + (* an entry at [i] that is not anonymous *)
      destruct (Nat.eq_dec j i) as [-> | Hne].
      * rewrite Hnth in E. inversion E; subst p0. congruence.
      * apply (IH _ _ _ H) with (j := j) (p := p); auto. lia.
Qed.

(** The only error the loop returns is the one of a de-anonymization. *)
Lemma matchLoop_error (n : nat) :
  forall (i : nat) (m m' : memory) (err : error),
    loop n i m = (Returned (Some err), m') ->
    a < next m ->
    (forall j p, nth_error (arrays m a) j = Some (Some p) -> p < next m) ->
    exists (j : nat) (p : loc),
      i <= j /\
      nth_error (arrays m a) j = Some (Some p) /\
      isAnonymous (objects m p) = true /\
      deAnonymized (objects m p) (hintOrDefault j typeHints)
        (objectMapperTransformer c (hintOrDefault j typeHints))
      = Err err.
Proof.
  induction n as [| n IH]; intros i m m' err H Ha Hptrs.
  - simpl in H. discriminate.
  - loop_cases H p0 v E; try discriminate.
    + apply IH in H; cbn [store next objects arrays] in *; try lia.
      * destruct H as [j [p [Hij [Hnth [Hanon Hde]]]]].
        rewrite update_same in Hnth.
        rewrite nth_error_setNth_other in Hnth by lia.
        pose proof (Hptrs _ _ Hnth) as Hp.
        rewrite update_other in Hanon, Hde by lia.
        exists j, p. repeat split; auto. lia.
      * intros j p Hnth. rewrite update_same in Hnth.
        destruct (Nat.eq_dec i j) as [-> | Hne].
        -- rewrite nth_error_setNth_same in Hnth
             by (apply nth_error_Some; congruence).
           inversion Hnth. lia.
        -- rewrite nth_error_setNth_other in Hnth by exact Hne.
           apply Hptrs in Hnth. lia.
    + inversion H; subst. exists i, p0. auto.
    + apply IH in H; auto.
      destruct H as [j [p [Hij H]]]. exists j, p. split; [lia | exact H].
Qed.

End MatchingFacts.

(** ** [Match] *)

Lemma hintOrDefault_missing (i : nat) (typeHints : list reflectType) :
  length typeHints < i + 1 -> hintOrDefault i typeHints = stringType.
Proof.
  intros H. unfold hintOrDefault.
  assert (E : Nat.ltb i (length typeHints) = false)
    by (apply Nat.ltb_ge; lia).
  rewrite E. reflexivity.
Qed.

Lemma hintOrDefault_given (i : nat) (typeHints : list reflectType)
    (typeHint : reflectType) :
  nth_error typeHints i = Some typeHint ->
  hintOrDefault i typeHints = typeHint.
Proof.
  intros H. unfold hintOrDefault.
  assert (E : Nat.ltb i (length typeHints) = true).
  { apply Nat.ltb_lt. apply nth_error_Some. congruence. }
  rewrite E. apply nth_error_nth. exact H.
Qed.

Lemma objectMapperTransformer_panics (c : CucumberExpression)
    (typeHint : reflectType) (arg : string) (rest : list (option string))
    (err : error) :
  defaultTransformer_Transform (parameterTypeRegistry c) arg typeHint
  = Err err ->
  objectMapperTransformer c typeHint (Some arg :: rest) = Panicked err.
Proof.
  intros H. unfold objectMapperTransformer. rewrite H. reflexivity.
Qed.

Section MatchFacts.

Variable deAnonymized :
  ParameterType -> reflectType -> Transformer -> result ParameterType.
Variable Argument : Type.
Variable BuildArguments :
  option TreeRegexp -> string -> list pointer -> memory ->
  outcome (option (list Argument)).

Local Notation "'copyOf'" := (workingCopy deAnonymized).
Local Notation "'match_'" := (Match deAnonymized Argument BuildArguments).

Lemma workingCopy_unfold (c : CucumberExpression)
    (typeHints : list reflectType) (m : memory) :
  copyOf c typeHints m
  = let a := fst (make (length (elems m (parameterTypes c))) m) in
    let m2 := copy a (parameterTypes c)
                (snd (make (length (elems m (parameterTypes c))) m)) in
    match matchLoop deAnonymized c typeHints a (length (arrays m2 a)) 0 m2
    with
    | (Panicked v, m3) => (Panicked v, m3)
    | (Returned (Some err), m3) => (Returned (Err err), m3)
    | (Returned None, m3) => (Returned (Ok a), m3)
    end.
Proof. reflexivity. Qed.

Lemma Match_memory (c : CucumberExpression) (text : string)
    (typeHints : list reflectType) (m : memory) :
  snd (match_ c text typeHints m) = snd (copyOf c typeHints m).
Proof.
  unfold Match. destruct (copyOf c typeHints m) as [[[a | err] | v] m'];
    try reflexivity.
  destruct (BuildArguments (treeRegexp c) text (arrays m' a) m');
    reflexivity.
Qed.

(** The working copy is a new array; memory as it was before the call is
    left as it was. *)
Lemma workingCopy_frame (c : CucumberExpression)
    (typeHints : list reflectType) (m : memory) :
  allocated m (parameterTypes c) ->
  forall l, l < next m ->
            objects (snd (copyOf c typeHints m)) l = objects m l /\
            arrays (snd (copyOf c typeHints m)) l = arrays m l.
Proof.
  intros Halloc l Hl. rewrite workingCopy_unfold.
  destruct (make_copy m (parameterTypes c) Halloc)
    as [Ha [Hnext [Hobj [_ Harr]]]].
  cbv zeta.
  set (a := fst (make (length (elems m (parameterTypes c))) m)) in *.
  set (m2 := copy a (parameterTypes c)
               (snd (make (length (elems m (parameterTypes c))) m))) in *.
  destruct (matchLoop deAnonymized c typeHints a (length (arrays m2 a)) 0 m2)
    as [r m3] eqn:E.
  apply matchLoop_frame in E; [| lia].
  destruct E as [_ [Hobj3 [Harr3 _]]].
  assert (Hm3 : objects m3 l = objects m l /\ arrays m3 l = arrays m l).
  { split.
    - rewrite Hobj3 by lia. rewrite Hobj. reflexivity.
    - rewrite Harr3 by lia. apply Harr. lia. }
  destruct r as [[err |] | v]; exact Hm3.
Qed.

Lemma elems_frame (m m' : memory) (s : slice) :
  allocated m s ->
  (forall l, l < next m -> arrays m' l = arrays m l) ->
  elems m' s = elems m s.
Proof.
  intros Halloc H. destruct s as [l |]; simpl in *; auto.
Qed.

Lemma Match_frame (c : CucumberExpression) (text : string)
    (typeHints : list reflectType) (m : memory) :
  allocated m (parameterTypes c) ->
  elems (snd (match_ c text typeHints m)) (parameterTypes c)
  = elems m (parameterTypes c) /\
  (forall l, l < next m ->
             objects (snd (match_ c text typeHints m)) l = objects m l /\
             arrays (snd (match_ c text typeHints m)) l = arrays m l).
Proof.
  intros Halloc. rewrite Match_memory. split.
  - apply elems_frame; [exact Halloc |].
    intros l Hl. apply workingCopy_frame; assumption.
  - apply workingCopy_frame. exact Halloc.
Qed.

(** C8.  A call of Match, whatever the text and the hints and however it
    ends, leaves the stored parameter-type list with the entries it had,
    and every parameter type and every array that was in memory before the
    call as it was: the entries are replaced in an array of the call's
    own. *)
Theorem Match_leaves_stored_list_and_parameter_types :
  forall (c : CucumberExpression) (text : string)
         (typeHints : list reflectType) (m : memory),
    allocated m (parameterTypes c) ->
    elems (snd (match_ c text typeHints m)) (parameterTypes c)
    = elems m (parameterTypes c) /\
    (forall l, l < next m ->
               objects (snd (match_ c text typeHints m)) l = objects m l /\
               arrays (snd (match_ c text typeHints m)) l = arrays m l).
Proof.
  intros c text typeHints m Halloc. apply Match_frame. exact Halloc.
Qed.

(** What a call that reaches [BuildArguments] has made of the stored list. *)
Lemma workingCopy_Ok (c : CucumberExpression) (typeHints : list reflectType)
    (m m' : memory) (a : loc) :
  wellStored m (parameterTypes c) ->
  copyOf c typeHints m = (Returned (Ok a), m') ->
  a = next m /\
  forall (i : nat) (p : loc),
    nth_error (elems m (parameterTypes c)) i = Some (Some p) ->
    isAnonymous (objects m p) = true ->
    exists q : loc,
      nth_error (arrays m' a) i = Some (Some q) /\
      deAnonymized (objects m p) (hintOrDefault i typeHints)
        (objectMapperTransformer c (hintOrDefault i typeHints))
      = Ok (objects m' q).
Proof.
  intros [Halloc Hptrs] H. rewrite workingCopy_unfold in H.
  destruct (make_copy m (parameterTypes c) Halloc)
    as [Ha [Hnext [Hobj [Hcopy _]]]].
  cbv zeta in H.
  set (a0 := fst (make (length (elems m (parameterTypes c))) m)) in *.
  set (m2 := copy a0 (parameterTypes c)
               (snd (make (length (elems m (parameterTypes c))) m))) in *.
  destruct (matchLoop deAnonymized c typeHints a0 (length (arrays m2 a0)) 0 m2)
    as [[[err |] | v] m3] eqn:E; try discriminate.
  inversion H; subst a m3. split; [exact Ha |].
  intros i p Hnth Hanon.
  destruct (matchLoop_resolved deAnonymized c typeHints a0 _ _ _ _ E
              ltac:(lia) i p) as [q [Hq Hde]].
  - assert (i < length (arrays m2 a0))
      by (apply nth_error_Some; rewrite Hcopy; congruence).
    lia.
  - rewrite Hcopy. exact Hnth.
  - apply Hptrs in Hnth. lia.
  - rewrite Hobj. exact Hanon.
  - exists q. split; [exact Hq |]. rewrite Hobj in Hde. exact Hde.
Qed.

(** A call that returns an error returns the error of a de-anonymization. *)
Lemma workingCopy_Err (c : CucumberExpression) (typeHints : list reflectType)
    (m m' : memory) (err : error) :
  wellStored m (parameterTypes c) ->
  copyOf c typeHints m = (Returned (Err err), m') ->
  exists (i : nat) (p : loc),
    nth_error (elems m (parameterTypes c)) i = Some (Some p) /\
    isAnonymous (objects m p) = true /\
    deAnonymized (objects m p) (hintOrDefault i typeHints)
      (objectMapperTransformer c (hintOrDefault i typeHints))
    = Err err.
Proof.
  intros [Halloc Hptrs] H. rewrite workingCopy_unfold in H.
  destruct (make_copy m (parameterTypes c) Halloc)
    as [Ha [Hnext [Hobj [Hcopy _]]]].
  cbv zeta in H.
  set (a0 := fst (make (length (elems m (parameterTypes c))) m)) in *.
  set (m2 := copy a0 (parameterTypes c)
               (snd (make (length (elems m (parameterTypes c))) m))) in *.
  destruct (matchLoop deAnonymized c typeHints a0 (length (arrays m2 a0)) 0 m2)
    as [[[err' |] | v] m3] eqn:E; try discriminate.
  inversion H; subst err' m3.
  apply matchLoop_error in E; [| lia |].
  - destruct E as [i [p [_ [Hnth [Hanon Hde]]]]].
    rewrite Hcopy in Hnth. rewrite Hobj in Hanon, Hde.
    exists i, p. auto.
  - intros j p Hnth. rewrite Hcopy in Hnth. apply Hptrs in Hnth. lia.
Qed.

Lemma Match_error (c : CucumberExpression) (text : string)
    (typeHints : list reflectType) (m m' : memory)
    (args : option (list Argument)) (err : error) :
  wellStored m (parameterTypes c) ->
  match_ c text typeHints m = (Returned (args, Some err), m') ->
  args = None /\
  exists (i : nat) (p : loc),
    nth_error (elems m (parameterTypes c)) i = Some (Some p) /\
    isAnonymous (objects m p) = true /\
    deAnonymized (objects m p) (hintOrDefault i typeHints)
      (objectMapperTransformer c (hintOrDefault i typeHints))
    = Err err.
Proof.
  intros Hwell H. unfold Match in H.
  destruct (copyOf c typeHints m) as [[[a | err'] | v] m1] eqn:E.
  - destruct (BuildArguments (treeRegexp c) text (arrays m1 a) m1);
      discriminate.
  - inversion H; subst. split; [reflexivity |].
    eapply workingCopy_Err; eassumption.
  - discriminate.
Qed.

(** C9.  In a call of Match the hint for position i is the string type when
    the caller gave fewer than i + 1 hints, and the caller's hint at index i
    otherwise; the parameter types handed to BuildArguments hold, at every
    position i whose stored type is anonymous, the type de-anonymized with
    that hint and with the object-mapper transformer for that hint. *)
Theorem anonymous_positions_use_hint_or_string_type :
  forall (c : CucumberExpression) (text : string)
         (typeHints : list reflectType) (m : memory),
    wellStored m (parameterTypes c) ->
    (forall i, length typeHints < i + 1 ->
               hintOrDefault i typeHints = stringType) /\
    (forall i typeHint, nth_error typeHints i = Some typeHint ->
                        hintOrDefault i typeHints = typeHint) /\
    (forall (args : option (list Argument)) (m' : memory),
        match_ c text typeHints m = (Returned (args, None), m') ->
        exists a : loc,
          next m <= a /\
          BuildArguments (treeRegexp c) text (arrays m' a) m' = Returned args
          /\
          forall (i : nat) (p : loc),
            nth_error (elems m (parameterTypes c)) i = Some (Some p) ->
            isAnonymous (objects m p) = true ->
            exists q : loc,
              nth_error (arrays m' a) i = Some (Some q) /\
              deAnonymized (objects m p) (hintOrDefault i typeHints)
                (objectMapperTransformer c (hintOrDefault i typeHints))
              = Ok (objects m' q)).
Proof.
  intros c text typeHints m Hwell. split; [| split].
  - intros i. apply hintOrDefault_missing.
  - intros i typeHint. apply hintOrDefault_given.
  - intros args m' H. unfold Match in H.
    destruct (copyOf c typeHints m) as [[[a | err'] | v] m1] eqn:E;
      try discriminate.
    destruct (BuildArguments (treeRegexp c) text (arrays m1 a) m1)
      as [args' | v] eqn:B; try discriminate.
    inversion H; subst args' m1.
    destruct (workingCopy_Ok _ _ _ _ _ Hwell E) as [Ha Hcopy].
    exists a. split; [lia |]. split; [exact B | exact Hcopy].
Qed.

Lemma matchLoop_no_anonymous (c : CucumberExpression)
    (hints hints' : list reflectType) (a : loc) (m : memory) :
  (forall j p, nth_error (arrays m a) j = Some (Some p) ->
               isAnonymous (objects m p) = false) ->
  forall n i,
    matchLoop deAnonymized c hints a n i m
    = matchLoop deAnonymized c hints' a n i m.
Proof.
  intros Hnone. induction n as [| n IH]; intros i; simpl.
  - reflexivity.
  - destruct (nth_error (arrays m a) i) as [[p |] |] eqn:E;
      try reflexivity.
    rewrite (Hnone _ _ E). apply IH.
Qed.

(** C10.  When none of the stored parameter types is anonymous, Match does
    not depend on the hints: for every text, two calls with any two hint
    lists end the same way, with the same result and the same memory. *)
Theorem Match_without_anonymous_types_ignores_hints :
  forall (c : CucumberExpression) (text : string)
         (typeHints typeHints' : list reflectType) (m : memory),
    allocated m (parameterTypes c) ->
    (forall i p, nth_error (elems m (parameterTypes c)) i = Some (Some p) ->
                 isAnonymous (objects m p) = false) ->
    match_ c text typeHints m = match_ c text typeHints' m.
Proof.
  intros c text typeHints typeHints' m Halloc Hnone.
  assert (E : copyOf c typeHints m = copyOf c typeHints' m).
  { rewrite !workingCopy_unfold. cbv zeta.
    destruct (make_copy m (parameterTypes c) Halloc)
      as [_ [_ [Hobj [Hcopy _]]]].
    rewrite (matchLoop_no_anonymous c typeHints typeHints'); [reflexivity |].
    intros j p Hnth. rewrite Hcopy in Hnth. rewrite Hobj. eauto. }
  unfold Match. rewrite E. reflexivity.
Qed.

(** C2, amended.  When the default transformer rejects a text, the
    object-mapper transformer panics with its error; Match does not return
    it: the only error Match returns is the error of a de-anonymization,
    with no arguments beside it.  However a call ends, the stored list and
    the parameter types in memory are what they were, so the compiled
    expression serves the calls that follow. *)
Theorem transform_failure_is_a_panic_and_Match_stays_usable :
  forall (c : CucumberExpression) (text : string)
         (typeHints : list reflectType) (m : memory),
    wellStored m (parameterTypes c) ->
    (forall typeHint arg rest err,
        defaultTransformer_Transform (parameterTypeRegistry c) arg typeHint
        = Err err ->
        objectMapperTransformer c typeHint (Some arg :: rest)
        = Panicked err) /\
    (forall args err m',
        match_ c text typeHints m = (Returned (args, Some err), m') ->
        args = None /\
        exists (i : nat) (p : loc),
          nth_error (elems m (parameterTypes c)) i = Some (Some p) /\
          isAnonymous (objects m p) = true /\
          deAnonymized (objects m p) (hintOrDefault i typeHints)
            (objectMapperTransformer c (hintOrDefault i typeHints))
          = Err err) /\
    elems (snd (match_ c text typeHints m)) (parameterTypes c)
    = elems m (parameterTypes c) /\
    (forall l, l < next m ->
               objects (snd (match_ c text typeHints m)) l = objects m l).
Proof.
  intros c text typeHints m Hwell. split; [| split; [| split]].
  - intros typeHint arg rest err. apply objectMapperTransformer_panics.
  - intros args err m'. apply Match_error. exact Hwell.
  - apply Match_frame. apply Hwell.
  - intros l Hl. apply Match_frame; [apply Hwell | exact Hl].
Qed.

End MatchFacts.

(** * Further properties *)

(** ** What the rewriter keeps *)

Lemma bind_any {A B : Type} (x : M A) (f : A -> M B) (st st' : state)
    (r : result B) :
  bind x f st = (r, st') ->
  (exists a st1, x st = (Ok a, st1) /\ f a st1 = (r, st')) \/
  (exists e, x st = (Err e, st') /\ r = Err e).
Proof.
  unfold bind. destruct (x st) as [[a | e] st1]; intros H.
  - left. eauto.
  - right. inversion H; subst. eauto.
Qed.

Lemma check_any (e : option error) (st st' : state) (r : result unit) :
  check e st = (r, st') -> st' = st.
Proof.
  destruct e; simpl; unfold fail, ret; intros H; inversion H; reflexivity.
Qed.

Section Transitions.

Variable astNode_text : astNode -> string.
Variable CheckParameterTypeName : string -> option error.

Local Notation "'rw'" :=
  (rewriteNodeToRegex astNode_text CheckParameterTypeName).

Variable Q : state -> state -> Prop.
Hypothesis Q_refl : forall st, Q st st.
Hypothesis Q_trans : forall st1 st2 st3, Q st1 st2 -> Q st2 st3 -> Q st1 st3.
Hypothesis Q_parameter :
  forall node st r st',
    rewriteParameter astNode_text CheckParameterTypeName node st = (r, st') ->
    Q st st'.

Lemma rewriteNodesLoop_transition (recur : astNode -> M string)
    (nodes : list astNode) :
  Forall (fun n => forall st r st', recur n st = (r, st') -> Q st st') nodes ->
  forall i delimiter builder st r st',
    rewriteNodesLoop recur nodes i delimiter builder st = (r, st') ->
    Q st st'.
Proof.
  induction 1 as [| node rest Hnode Hrest IH];
    intros i delimiter builder st r st' H; simpl in H.
  - unfold ret in H. inversion H; subst. apply Q_refl.
  - apply bind_any in H. destruct H as [[s [st1 [Hs H]]] | [e [Hs _]]].
    + eapply Q_trans; [eapply Hnode; exact Hs | eapply IH; exact H].
    + eapply Hnode. exact Hs.
Qed.

Lemma rewriteNodesToRegex_transition (recur : astNode -> M string)
    (nodes : list astNode) (delimiter prefix suffix : string) :
  Forall (fun n => forall st r st', recur n st = (r, st') -> Q st st') nodes ->
  forall st r st',
    rewriteNodesToRegex recur nodes delimiter prefix suffix st = (r, st') ->
    Q st st'.
Proof.
  intros Hall st r st' H. unfold rewriteNodesToRegex in H.
  apply bind_any in H. destruct H as [[b [st1 [Hb H]]] | [e [Hb _]]].
  - unfold ret in H. inversion H; subst.
    eapply rewriteNodesLoop_transition; eassumption.
  - eapply rewriteNodesLoop_transition; eassumption.
Qed.

Lemma rewriteNodeToRegex_transition (node : astNode) :
  forall st r st', rw node st = (r, st') -> Q st st'.
Proof.
  induction node as [ty children tok IH] using astNode_forall_ind.
  intros st r st' H. rewrite rewriteNodeToRegex_unfold in H.
  unfold rewriteNode in H. cbn [node_nodeType] in H.
  destruct st as [c m]. destruct ty.
  - unfold ret in H. inversion H; subst. apply Q_refl.
  - unfold rewriteOptional in H. cbn [node_nodes] in H.
    apply bind_any in H. destruct H as [[u [st1 [H1 H]]] | [e [H1 _]]];
      apply check_any in H1; subst; [| apply Q_refl].
    apply bind_any in H. destruct H as [[u' [st2 [H2 H]]] | [e [H2 _]]];
      apply check_any in H2; subst; [| apply Q_refl].
    eapply rewriteNodesToRegex_transition; eassumption.
  - unfold rewriteAlternation in H. cbn [node_nodes] in H.
    apply bind_any in H. destruct H as [[u [st1 [H1 H]]] | [e [H1 _]]];
      apply check_any in H1; subst; [| apply Q_refl].
    eapply rewriteNodesToRegex_transition; eassumption.
  - unfold rewriteAlternative in H. cbn [node_nodes] in H.
    eapply rewriteNodesToRegex_transition; eassumption.
  - eapply Q_parameter. exact H.
  - unfold rewriteExpression in H. cbn [node_nodes] in H.
    eapply rewriteNodesToRegex_transition; eassumption.
  - inversion H; subst. apply Q_refl.
Qed.

End Transitions.

Lemma keeps_refl (st : state) : keeps st st.
Proof.
  unfold keeps. repeat split; auto. exists []. symmetry. apply app_nil_r.
Qed.

Lemma keeps_trans (st1 st2 st3 : state) :
  keeps st1 st2 -> keeps st2 st3 -> keeps st1 st3.
Proof.
  intros [Hs [Hr [Ht [Ho [es Hes]]]]] [Hs' [Hr' [Ht' [Ho' [es' Hes']]]]].
  unfold keeps.
  split; [congruence |]. split; [congruence |]. split; [congruence |].
  split.
  - intros l. rewrite Ho'. apply Ho.
  - exists (es ++ es')%list. rewrite Hes', Hes. symmetry. apply app_assoc.
Qed.

Lemma rewriteParameter_keeps (astNode_text : astNode -> string)
    (CheckParameterTypeName : string -> option error)
    (node : astNode) (st : state) (r : result string) (st' : state) :
  rewriteParameter astNode_text CheckParameterTypeName node st = (r, st') ->
  keeps st st'.
Proof.
  destruct st as [c m]. unfold rewriteParameter. intros H.
  destruct (CheckParameterTypeName (astNode_text node)).
  - inversion H; subst. apply keeps_refl.
  - destruct (LookupByTypeName (parameterTypeRegistry c) (astNode_text node))
      as [p |].
    + unfold append, allocArray in H. inversion H; subst. clear H.
      unfold keeps. cbn [fst snd source parameterTypeRegistry treeRegexp
                           set_parameterTypes objects next arrays
                           parameterTypes elems].
      repeat split; auto.
      exists [Some p]. apply update_same.
    + inversion H; subst. apply keeps_refl.
Qed.

Section Keeping.

Variable astNode_text : astNode -> string.
Variable CheckParameterTypeName : string -> option error.

Local Notation "'rw'" :=
  (rewriteNodeToRegex astNode_text CheckParameterTypeName).

Lemma rewriteNodeToRegex_keeps (node : astNode) (st : state)
    (r : result string) (st' : state) :
  rw node st = (r, st') -> keeps st st'.
Proof.
  apply (rewriteNodeToRegex_transition astNode_text CheckParameterTypeName
           keeps keeps_refl keeps_trans).
  intros n s r0 s'. apply rewriteParameter_keeps.
Qed.

(** X1.  However a rewriting ends, with a pattern or with an error, it
    leaves the source, the registry and the tree regexp of the receiver and
    all the parameter types in memory as they were, and only adds entries
    after those the stored list had. *)
Theorem rewriting_only_appends_to_the_stored_list :
  forall (node : astNode) (c c' : CucumberExpression) (m m' : memory)
         (r : result string),
    rw node (c, m) = (r, (c', m')) ->
    source c' = source c /\
    parameterTypeRegistry c' = parameterTypeRegistry c /\
    treeRegexp c' = treeRegexp c /\
    (forall l, objects m' l = objects m l) /\
    exists entries : list pointer,
      elems m' (parameterTypes c')
      = (elems m (parameterTypes c) ++ entries)%list.
Proof.
  intros node c c' m m' r H.
  exact (rewriteNodeToRegex_keeps node (c, m) r (c', m') H).
Qed.

End Keeping.

(** ** The errors of the rewriter *)

Lemma grammarError (c : CucumberExpression) (message : string)
    (astNode_text : astNode -> string)
    (CheckParameterTypeName : string -> option error) (node : astNode) :
  In message grammarMessages ->
  rewriterError astNode_text CheckParameterTypeName c node
    (NewCucumberExpressionError (Sprintf message (source c))).
Proof. intros H. left. exists message. auto. Qed.

Lemma assertNoParameters_error (c : CucumberExpression) (node : astNode)
    (message : string) (e : error) :
  assertNoParameters c node message = Some e ->
  e = NewCucumberExpressionError (Sprintf message (source c)).
Proof.
  unfold assertNoParameters. destruct (existsb _ _); intros H;
    inversion H; reflexivity.
Qed.

Lemma assertNotEmpty_error (c : CucumberExpression) (node : astNode)
    (message : string) (e : error) :
  assertNotEmpty c node message = Some e ->
  e = NewCucumberExpressionError (Sprintf message (source c)).
Proof.
  unfold assertNotEmpty. destruct (existsb _ _); intros H;
    inversion H; reflexivity.
Qed.

Lemma checkAlternatives_error (c : CucumberExpression)
    (alternatives : list astNode) (e : error) :
  checkAlternatives c alternatives = Some e ->
  exists message,
    In message [alternativesMayNotBeEmpty; parameterTypesCanNotBeAlternative;
                alternativeMayNotExclusivelyContainOptionals] /\
    e = NewCucumberExpressionError (Sprintf message (source c)).
Proof.
  induction alternatives as [| alternative rest IH]; simpl; [discriminate |].
  destruct (Nat.eqb (length (node_nodes alternative)) 0).
  - intros H. inversion H. eauto.
  - destruct (assertNoParameters c alternative
                parameterTypesCanNotBeAlternative) as [e1 |] eqn:E1.
    + intros H. inversion H; subst. apply assertNoParameters_error in E1.
      eauto 6.
    + destruct (assertNotEmpty c alternative
                  alternativeMayNotExclusivelyContainOptionals)
        as [e2 |] eqn:E2.
      * intros H. inversion H; subst. apply assertNotEmpty_error in E2.
        eauto 6.
      * exact IH.
Qed.

Lemma grammarMessages_end_with_the_source (message expression : string) :
  In message grammarMessages ->
  Sprintf message expression = Sprintf message EmptyString ++ expression.
Proof.
  intros H. simpl in H.
  repeat (destruct H as [<- | H];
          [simpl; rewrite append_empty_r; reflexivity |]).
  contradiction.
Qed.

Section Errors.

Variable astNode_text : astNode -> string.
Variable CheckParameterTypeName : string -> option error.

Local Notation "'rw'" :=
  (rewriteNodeToRegex astNode_text CheckParameterTypeName).
Local Notation "'isError'" :=
  (rewriterError astNode_text CheckParameterTypeName).

Lemma rewriterError_same (c c' : CucumberExpression) (node : astNode)
    (e : error) :
  source c' = source c ->
  parameterTypeRegistry c' = parameterTypeRegistry c ->
  isError c' node e -> isError c node e.
Proof.
  intros Hs Hr. unfold rewriterError. rewrite Hs, Hr. auto.
Qed.

Lemma rewriterError_child (c : CucumberExpression) (ty : nodeType)
    (children : list astNode) (tok : token) (child : astNode) (e : error) :
  ty <> textNode -> ty <> parameterNode ->
  In child children ->
  isError c child e -> isError c (mkAstNode ty children tok) e.
Proof.
  intros Ht Hp Hin H.
  assert (Hsub : forall n, In n (parameterNodes child) ->
                           In n (parameterNodes (mkAstNode ty children tok))).
  { intros n Hn.
    assert (In n (flat_map parameterNodes children))
      by (apply in_flat_map; eauto).
    destruct ty; try congruence; assumption. }
  destruct H as [H | [[n [Hn H]] | [n [Hn H]]]].
  - left. exact H.
  - right. left. exists n. auto.
  - right. right. exists n. auto.
Qed.

Lemma rewriteNodesLoop_error (children : list astNode) :
  Forall (fun n => forall st e st',
              rw n st = (Err e, st') -> isError (fst st) n e) children ->
  forall i delimiter builder st e st',
    rewriteNodesLoop rw children i delimiter builder st = (Err e, st') ->
    exists child, In child children /\ isError (fst st) child e.
Proof.
  induction 1 as [| node rest Hnode Hrest IH];
    intros i delimiter builder st e st' H; simpl in H.
  - discriminate.
  - apply bind_any in H. destruct H as [[s [st1 [Hs H]]] | [e' [Hs He]]].
    + apply IH in H. destruct H as [child [Hin H]].
      exists child. split; [right; exact Hin |].
      apply rewriteNodeToRegex_keeps in Hs.
      destruct Hs as [Hsrc [Hreg _]].
      eapply rewriterError_same; eassumption.
    + inversion He; subst e'. exists node. split; [left; reflexivity |].
      eapply Hnode. exact Hs.
Qed.

Lemma rewriteNodesToRegex_error (ty : nodeType) (children : list astNode)
    (tok : token) (delimiter prefix suffix : string) :
  ty <> textNode -> ty <> parameterNode ->
  Forall (fun n => forall st e st',
              rw n st = (Err e, st') -> isError (fst st) n e) children ->
  forall st e st',
    rewriteNodesToRegex rw children delimiter prefix suffix st
    = (Err e, st') ->
    isError (fst st) (mkAstNode ty children tok) e.
Proof.
  intros Ht Hp Hall st e st' H. unfold rewriteNodesToRegex in H.
  apply bind_any in H. destruct H as [[b [st1 [Hb H]]] | [e' [Hb He]]].
  - discriminate.
  - inversion He; subst e'.
    destruct (rewriteNodesLoop_error _ Hall _ _ _ _ _ _ Hb)
      as [child [Hin Hchild]].
    eapply rewriterError_child; eassumption.
Qed.

Lemma rewriteNodeToRegex_error (node : astNode) :
  forall st e st', rw node st = (Err e, st') -> isError (fst st) node e.
Proof.
  induction node as [ty children tok IH] using astNode_forall_ind.
  intros st e st' H. rewrite rewriteNodeToRegex_unfold in H.
  unfold rewriteNode in H. cbn [node_nodeType] in H.
  destruct st as [c m]. cbn [fst]. destruct ty.
  - discriminate.
  - unfold rewriteOptional in H. cbn [node_nodes] in H.
    apply bind_any in H. destruct H as [[u [st1 [H1 H]]] | [e' [H1 He]]].
    + apply check_any in H1. subst st1.
      apply bind_any in H. destruct H as [[u' [st2 [H2 H]]] | [e' [H2 He]]].
      * apply check_any in H2. subst st2.
        apply (rewriteNodesToRegex_error optionalNode children tok
                 EmptyString "(?:" ")?" ltac:(discriminate)
                 ltac:(discriminate) IH _ _ _ H).
      * inversion He; subst e'.
        destruct (assertNotEmpty c _ optionalMayNotBeEmpty) as [e0 |] eqn:E;
          [| discriminate].
        simpl in H2. unfold fail in H2. inversion H2; subst.
        apply assertNotEmpty_error in E. subst.
        apply grammarError. simpl. tauto.
    + inversion He; subst e'.
      destruct (assertNoParameters c _ parameterTypesCanNotBeOptional)
        as [e0 |] eqn:E; [| discriminate].
      simpl in H1. unfold fail in H1. inversion H1; subst.
      apply assertNoParameters_error in E. subst.
      apply grammarError. simpl. tauto.
  - unfold rewriteAlternation in H. cbn [node_nodes] in H.
    apply bind_any in H. destruct H as [[u [st1 [H1 H]]] | [e' [H1 He]]].
    + apply check_any in H1. subst st1.
      apply (rewriteNodesToRegex_error alternationNode children tok
               "|" "(?:" ")" ltac:(discriminate) ltac:(discriminate)
               IH _ _ _ H).
    + inversion He; subst e'.
      destruct (checkAlternatives c children) as [e0 |] eqn:E;
        [| discriminate].
      simpl in H1. unfold fail in H1. inversion H1; subst.
      apply checkAlternatives_error in E. destruct E as [msg [Hin He0]].
      subst.
      apply grammarError. simpl in *. tauto.
  - unfold rewriteAlternative in H. cbn [node_nodes] in H.
    apply (rewriteNodesToRegex_error alternativeNode children tok
             EmptyString EmptyString EmptyString ltac:(discriminate)
             ltac:(discriminate) IH _ _ _ H).
  - unfold rewriteParameter in H.
    destruct (CheckParameterTypeName
                (astNode_text (mkAstNode parameterNode children tok)))
      as [e0 |] eqn:Echeck.
    + inversion H; subst. right. left.
      exists (mkAstNode parameterNode children tok).
      split; [left; reflexivity | exact Echeck].
    + destruct (LookupByTypeName (parameterTypeRegistry c)
                  (astNode_text (mkAstNode parameterNode children tok)))
        as [p |] eqn:Elookup.
      * unfold append, allocArray in H. discriminate.
      * inversion H; subst. right. right.
        exists (mkAstNode parameterNode children tok).
        split; [left; reflexivity |]. auto.
  - unfold rewriteExpression in H. cbn [node_nodes] in H.
    apply (rewriteNodesToRegex_error expressionNode children tok
             EmptyString "^" "$" ltac:(discriminate)
             ltac:(discriminate) IH _ _ _ H).
  - assert (He : e = NewCucumberExpressionError
                       (Sprintf couldNotRewrite (source c))) by congruence.
    rewrite He. apply grammarError. simpl. tauto.
Qed.

(** X2.  Every error of the rewriter is of one of three kinds: one of its six
    messages followed by the source expression of the receiver, unchanged; the
    error the name check gives for one of the tree's Parameter nodes; or the
    undefined-type error for a Parameter node whose name passes the check and
    is not in the registry. *)
Theorem rewriter_errors_carry_the_source_or_name_a_parameter :
  forall (node : astNode) (c : CucumberExpression) (m : memory) (e : error)
         (st' : state),
    rw node (c, m) = (Err e, st') ->
    (exists message,
        In message grammarMessages /\
        e = NewCucumberExpressionError (Sprintf message (source c)) /\
        Sprintf message (source c)
        = Sprintf message EmptyString ++ source c) \/
    (exists n,
        In n (parameterNodes node) /\
        CheckParameterTypeName (astNode_text n) = Some e) \/
    (exists n,
        In n (parameterNodes node) /\
        CheckParameterTypeName (astNode_text n) = None /\
        LookupByTypeName (parameterTypeRegistry c) (astNode_text n) = None /\
        e = NewUndefinedParameterTypeError (astNode_text n)).
Proof.
  intros node c m e st' H.
  destruct (rewriteNodeToRegex_error node (c, m) e st' H)
    as [[message [Hin He]] | H']; [| right; exact H'].
  left. exists message. split; [exact Hin |]. split; [exact He |].
  apply grammarMessages_end_with_the_source. exact Hin.
Qed.

End Errors.

(** ** The trees the rewriter takes *)

Lemma checkAlternatives_all_pass (c : CucumberExpression)
    (alternatives : list astNode) :
  forallb passesChecks alternatives = true ->
  checkAlternatives c alternatives = None.
Proof.
  intros H.
  rewrite <- (app_nil_r alternatives).
  rewrite checkAlternatives_passed by exact H. reflexivity.
Qed.

Lemma checkAlternatives_one_fails (c : CucumberExpression)
    (alternatives : list astNode) :
  forallb passesChecks alternatives = false ->
  exists e, checkAlternatives c alternatives = Some e.
Proof.
  induction alternatives as [| alternative rest IH]; simpl; [discriminate |].
  intros H. unfold passesChecks in H at 1. unfold hasDirect in H.
  unfold assertNoParameters, assertNotEmpty.
  destruct (Nat.eqb (length (node_nodes alternative)) 0); [eauto |].
  destruct (existsb
              (fun n => nodeType_eqb (node_nodeType n) parameterNode)
              (node_nodes alternative)); [eauto |].
  destruct (existsb
              (fun n => nodeType_eqb (node_nodeType n) textNode)
              (node_nodes alternative)); [| eauto].
  simpl in H. apply IH. exact H.
Qed.

Section Accepting.

Variable astNode_text : astNode -> string.
Variable CheckParameterTypeName : string -> option error.

Local Notation "'rw'" :=
  (rewriteNodeToRegex astNode_text CheckParameterTypeName).
Local Notation "'ok'" := (accepts astNode_text CheckParameterTypeName).

Local Notation "'decided'" :=
  (decidedBy astNode_text CheckParameterTypeName).

Lemma rewriteNodesLoop_decided (registry : ParameterTypeRegistry)
    (children : list astNode) :
  Forall (decided registry) children ->
  forall i delimiter builder st,
    parameterTypeRegistry (fst st) = registry ->
    if forallb (ok registry) children
    then exists out st',
        rewriteNodesLoop rw children i delimiter builder st = (Ok out, st')
    else exists e st',
        rewriteNodesLoop rw children i delimiter builder st = (Err e, st').
Proof.
  induction 1 as [| node rest Hnode Hrest IH];
    intros i delimiter builder st Hreg; simpl.
  - unfold ret. eauto.
  - specialize (Hnode st Hreg). unfold bind.
    destruct (ok registry node); simpl.
    + destruct Hnode as [s [st1 Hs]]. rewrite Hs.
      apply IH. apply rewriteNodeToRegex_keeps in Hs.
      destruct Hs as [_ [Hr _]]. congruence.
    + destruct Hnode as [e [st1 Hs]]. rewrite Hs. eauto.
Qed.

Lemma rewriteNodesToRegex_decided (registry : ParameterTypeRegistry)
    (children : list astNode) (delimiter prefix suffix : string) :
  Forall (decided registry) children ->
  forall st,
    parameterTypeRegistry (fst st) = registry ->
    if forallb (ok registry) children
    then exists out st',
        rewriteNodesToRegex rw children delimiter prefix suffix st
        = (Ok out, st')
    else exists e st',
        rewriteNodesToRegex rw children delimiter prefix suffix st
        = (Err e, st').
Proof.
  intros Hall st Hreg. unfold rewriteNodesToRegex, bind.
  pose proof (rewriteNodesLoop_decided registry children Hall
                0 delimiter prefix st Hreg) as H.
  destruct (forallb (ok registry) children).
  - destruct H as [b [st1 Hb]]. rewrite Hb. unfold ret. eauto.
  - destruct H as [e [st1 Hb]]. rewrite Hb. eauto.
Qed.

Lemma rewriteNodeToRegex_decided (registry : ParameterTypeRegistry)
    (node : astNode) : decided registry node.
Proof.
  induction node as [ty children tok IH] using astNode_forall_ind.
  intros st Hreg. rewrite rewriteNodeToRegex_unfold. unfold rewriteNode.
  cbn [node_nodeType]. destruct st as [c m]. cbn [fst] in Hreg.
  destruct ty; cbn [accepts].
  - unfold ret. eauto.
  - unfold rewriteOptional, hasDirect, assertNoParameters, assertNotEmpty.
    cbn [node_nodes].
    destruct (existsb
                (fun n => nodeType_eqb (node_nodeType n) parameterNode)
                children); [do 2 eexists; reflexivity |].
    destruct (existsb
                (fun n => nodeType_eqb (node_nodeType n) textNode)
                children); [| do 2 eexists; reflexivity].
    cbn [negb andb].
    change (if forallb (ok registry) children
            then exists out st',
                rewriteNodesToRegex rw children EmptyString "(?:" ")?" (c, m)
                = (Ok out, st')
            else exists e st',
                rewriteNodesToRegex rw children EmptyString "(?:" ")?" (c, m)
                = (Err e, st')).
    apply rewriteNodesToRegex_decided; assumption.
  - unfold rewriteAlternation. cbn [node_nodes].
    destruct (forallb passesChecks children) eqn:E.
    + rewrite (checkAlternatives_all_pass c children E).
      cbn [andb].
      change (if forallb (ok registry) children
              then exists out st',
                  rewriteNodesToRegex rw children "|" "(?:" ")" (c, m)
                  = (Ok out, st')
              else exists e st',
                  rewriteNodesToRegex rw children "|" "(?:" ")" (c, m)
                  = (Err e, st')).
      apply rewriteNodesToRegex_decided; assumption.
    + destruct (checkAlternatives_one_fails c children E) as [e He].
      rewrite He. do 2 eexists; reflexivity.
  - unfold rewriteAlternative. cbn [node_nodes].
    apply rewriteNodesToRegex_decided; assumption.
  - unfold rewriteParameter. subst registry.
    destruct (CheckParameterTypeName
                (astNode_text (mkAstNode parameterNode children tok)));
      [do 2 eexists; reflexivity |].
    destruct (LookupByTypeName (parameterTypeRegistry c)
                (astNode_text (mkAstNode parameterNode children tok)));
      do 2 eexists; reflexivity.
  - unfold rewriteExpression. cbn [node_nodes].
    apply rewriteNodesToRegex_decided; assumption.
  - do 2 eexists; reflexivity.
Qed.

(** X3.  Whether a tree rewrites depends on the tree and the registry alone:
    it rewrites to a pattern exactly when it is accepted, that is when every
    Parameter node the rewriter comes to has a valid name that the registry
    knows, every Optional has a direct Text child and no direct Parameter
    child, every alternative of an Alternation has children, a direct Text
    child and no direct Parameter child, and no node it comes to is of an
    unknown kind; otherwise it fails with an error. *)
Theorem rewriting_succeeds_exactly_on_accepted_trees :
  forall (node : astNode) (c : CucumberExpression) (m : memory),
    ((exists out st', rw node (c, m) = (Ok out, st')) <->
     ok (parameterTypeRegistry c) node = true) /\
    ((exists e st', rw node (c, m) = (Err e, st')) <->
     ok (parameterTypeRegistry c) node = false).
Proof.
  intros node c m.
  pose proof (rewriteNodeToRegex_decided (parameterTypeRegistry c) node
                (c, m) eq_refl) as H.
  destruct (ok (parameterTypeRegistry c) node).
  - destruct H as [out [st' H]]. split; split; try discriminate; eauto.
    + intros [e [st1 He]]. rewrite H in He. discriminate.
  - destruct H as [e [st' H]]. split; split; try discriminate; eauto.
    + intros [out [st1 Ho]]. rewrite H in Ho. discriminate.
Qed.

End Accepting.

(** ** Optionals, alternations and alternatives *)

Section Groups.

Variable astNode_text : astNode -> string.
Variable CheckParameterTypeName : string -> option error.

Local Notation "'rw'" :=
  (rewriteNodeToRegex astNode_text CheckParameterTypeName).





(** X6.  An Alternative node is checked by nothing and wraps nothing: when
    its children rewrite one after the other, it rewrites to their fragments
    with nothing before, between or after them. *)
Theorem alternative_node_is_transparent :
  forall (children : list astNode) (tok : token) (st st' : state)
         (fragments : list string),
    rewritesAll rw children st fragments st' ->
    rw (mkAstNode alternativeNode children tok) st
    = (Ok (concatenation fragments), st').
Proof.
  intros children tok st st' fragments H.
  change (rw (mkAstNode alternativeNode children tok))
    with (rewriteNodesToRegex rw children EmptyString EmptyString EmptyString).
  rewrite (rewriteNodesToRegex_complete _ _ _ _ _ _ _ _ H).
  rewrite Join_no_delimiter. simpl. rewrite append_empty_r. reflexivity.
Qed.

(** The first child that fails ends the loop: the children after it are not
    rewritten, and the error and the state are those of the failing child. *)
Lemma rewriteNodesToRegex_first_error (before after : list astNode)
    (failing : astNode) (delimiter prefix suffix : string)
    (st st1 st2 : state) (fragments : list string) (e : error) :
  rewritesAll rw before st fragments st1 ->
  rw failing st1 = (Err e, st2) ->
  rewriteNodesToRegex rw (before ++ failing :: after) delimiter prefix suffix st
  = (Err e, st2).
Proof.
  intros Hbefore Hfail. unfold rewriteNodesToRegex.
  assert (Hloop : forall i builder,
             rewriteNodesLoop rw (before ++ failing :: after) i delimiter
               builder st = (Err e, st2)).
  { clear prefix suffix.
    induction Hbefore as [st | node rest st st0 st1 s fs Hs Hrest IH];
      intros i builder; simpl; unfold bind.
    - rewrite Hfail. reflexivity.
    - rewrite Hs. apply IH. exact Hfail. }
  unfold bind. rewrite Hloop. reflexivity.
Qed.

(** X7.  In an Expression or Alternative node the error of the first child
    that fails is the error of the node: the children after it are not
    rewritten, whatever they are, and the state is the one the failing child
    left. *)
Theorem first_failing_child_decides :
  forall (ty : nodeType) (before after : list astNode) (failing : astNode)
         (tok : token) (st st1 st2 : state) (fragments : list string)
         (e : error),
    ty = expressionNode \/ ty = alternativeNode ->
    rewritesAll rw before st fragments st1 ->
    rw failing st1 = (Err e, st2) ->
    rw (mkAstNode ty (before ++ failing :: after) tok) st = (Err e, st2).
Proof.
  intros ty before after failing tok st st1 st2 fragments e Hty Hbefore Hfail.
  destruct Hty as [-> | ->].
  - change (rw (mkAstNode expressionNode (before ++ failing :: after) tok))
      with (rewriteNodesToRegex rw (before ++ failing :: after)
              EmptyString "^" "$").
    eapply rewriteNodesToRegex_first_error; eassumption.
  - change (rw (mkAstNode alternativeNode (before ++ failing :: after) tok))
      with (rewriteNodesToRegex rw (before ++ failing :: after)
              EmptyString EmptyString EmptyString).
    eapply rewriteNodesToRegex_first_error; eassumption.
Qed.

End Groups.

(** ** Construction, whatever memory holds *)

Section Independence.

Variable astNode_text : astNode -> string.
Variable CheckParameterTypeName : string -> option error.

Local Notation "'rw'" :=
  (rewriteNodeToRegex astNode_text CheckParameterTypeName).

Lemma alike_after (st1 st2 st1' st2' : state) :
  alike st1 st2 -> keeps st1 st1' -> keeps st2 st2' -> alike st1' st2'.
Proof.
  intros [Hs [Hr Ho]] [Hs1 [Hr1 [_ [Ho1 _]]]] [Hs2 [Hr2 [_ [Ho2 _]]]].
  unfold alike. split; [congruence |]. split; [congruence |].
  intros l. rewrite Ho1, Ho2. apply Ho.
Qed.

Lemma rewriteNodesLoop_alike (children : list astNode) :
  Forall (fun n => forall st1 st2,
              alike st1 st2 -> fst (rw n st1) = fst (rw n st2)) children ->
  forall i delimiter builder st1 st2,
    alike st1 st2 ->
    fst (rewriteNodesLoop rw children i delimiter builder st1)
    = fst (rewriteNodesLoop rw children i delimiter builder st2).
Proof.
  induction 1 as [| node rest Hnode Hrest IH];
    intros i delimiter builder st1 st2 Halike; simpl.
  - reflexivity.
  - unfold bind. specialize (Hnode st1 st2 Halike).
    destruct (rw node st1) as [[s1 | e1] st1'] eqn:E1;
      destruct (rw node st2) as [[s2 | e2] st2'] eqn:E2;
      simpl in Hnode; try discriminate.
    + inversion Hnode; subst s2. apply IH.
      eapply alike_after; [exact Halike | |];
        eapply rewriteNodeToRegex_keeps; eassumption.
    + exact Hnode.
Qed.

Lemma rewriteNodesToRegex_alike (children : list astNode)
    (delimiter prefix suffix : string) :
  Forall (fun n => forall st1 st2,
              alike st1 st2 -> fst (rw n st1) = fst (rw n st2)) children ->
  forall st1 st2,
    alike st1 st2 ->
    fst (rewriteNodesToRegex rw children delimiter prefix suffix st1)
    = fst (rewriteNodesToRegex rw children delimiter prefix suffix st2).
Proof.
  intros Hall st1 st2 Halike. unfold rewriteNodesToRegex, bind.
  pose proof (rewriteNodesLoop_alike children Hall 0 delimiter prefix
                st1 st2 Halike) as H.
  destruct (rewriteNodesLoop rw children 0 delimiter prefix st1)
    as [[b1 | e1] st1'];
    destruct (rewriteNodesLoop rw children 0 delimiter prefix st2)
      as [[b2 | e2] st2'];
    simpl in H; try discriminate.
  - inversion H; subst. reflexivity.
  - exact H.
Qed.

Lemma check_alike {A : Type} (e : option error) (f g : M A)
    (st1 st2 : state) :
  fst (f st1) = fst (g st2) ->
  fst ((check e ;;; f) st1) = fst ((check e ;;; g) st2).
Proof.
  intros H. destruct e; simpl; unfold bind, fail, ret; simpl; auto.
Qed.

Lemma rewriteNodeToRegex_alike (node : astNode) :
  forall st1 st2, alike st1 st2 -> fst (rw node st1) = fst (rw node st2).
Proof.
  induction node as [ty children tok IH] using astNode_forall_ind.
  intros [c1 m1] [c2 m2] Halike.
  destruct Halike as [Hs [Hr Ho]]. cbn [fst snd] in Hs, Hr, Ho.
  assert (Halike : alike (c1, m1) (c2, m2)) by (repeat split; assumption).
  rewrite !rewriteNodeToRegex_unfold. unfold rewriteNode.
  cbn [node_nodeType]. destruct ty.
  - reflexivity.
  - unfold rewriteOptional, assertNoParameters, assertNotEmpty.
    rewrite Hs. apply check_alike. apply check_alike.
    apply rewriteNodesToRegex_alike; assumption.
  - unfold rewriteAlternation.
    assert (E : checkAlternatives c1 (node_nodes (mkAstNode alternationNode
                                                    children tok))
                = checkAlternatives c2 (node_nodes (mkAstNode alternationNode
                                                      children tok))).
    { cbn [node_nodes]. clear IH Halike.
      induction children as [| alternative rest IHc]; simpl;
        [reflexivity |].
      unfold assertNoParameters, assertNotEmpty. rewrite Hs, IHc.
      reflexivity. }
    rewrite E. apply check_alike.
    apply rewriteNodesToRegex_alike; assumption.
  - unfold rewriteAlternative.
    apply rewriteNodesToRegex_alike; assumption.
  - unfold rewriteParameter. rewrite Hr.
    destruct (CheckParameterTypeName
                (astNode_text (mkAstNode parameterNode children tok)));
      [reflexivity |].
    destruct (LookupByTypeName (parameterTypeRegistry c2)
                (astNode_text (mkAstNode parameterNode children tok)));
      [| reflexivity].
    unfold append, allocArray. cbn [fst objects]. rewrite Ho. reflexivity.
  - unfold rewriteExpression.
    apply rewriteNodesToRegex_alike; assumption.
  - cbn [fst]. rewrite Hs. reflexivity.
Qed.

Lemma entryFor_functional (registry : ParameterTypeRegistry)
    (nodes : list astNode) (entries entries' : list pointer) :
  Forall2 (entryFor astNode_text registry) nodes entries ->
  Forall2 (entryFor astNode_text registry) nodes entries' ->
  entries = entries'.
Proof.
  intros H. revert entries'.
  induction H as [| n e l es [_ [He _]] Hrest IH]; intros entries' H';
    inversion H' as [| n' e' l' es' [_ [He' _]] Hrest']; subst.
  - reflexivity.
  - f_equal. apply IH. exact Hrest'.
Qed.

Variable parse : string -> result astNode.
Variable MustCompile : string -> outcome Regexp.

Local Notation "'New'" :=
  (NewCucumberExpression astNode_text CheckParameterTypeName parse
     MustCompile).

(** X8.  A Parameter node whose name the name check refuses fails with the
    error of the check, whether or not the registry has a type of that name,
    and leaves the state as it was; an expression whose tree holds such a
    node does not compile. *)
Theorem invalid_parameter_name_fails_construction :
  forall (registry : ParameterTypeRegistry) (node : astNode) (e : error),
    node_nodeType node = parameterNode ->
    CheckParameterTypeName (astNode_text node) = Some e ->
    (forall (c : CucumberExpression) (m : memory),
        rw node (c, m) = (Err e, (c, m))) /\
    (forall (expression : string) (ast : astNode) (m : memory),
        parse expression = Ok ast ->
        In node (parameterNodes ast) ->
        exists err m',
          New expression registry m = (Returned (Err err), m')).
Proof.
  intros registry node e Hkind Hcheck.
  assert (Hnode : forall c m, rw node (c, m) = (Err e, (c, m))).
  { intros c m. rewrite rewriteNodeToRegex_unfold. unfold rewriteNode.
    rewrite Hkind. unfold rewriteParameter. rewrite Hcheck. reflexivity. }
  split; [exact Hnode |].
  intros expression ast m Hparse Hin.
  assert (Hfails :
            failsUnder astNode_text CheckParameterTypeName registry node).
  { intros [c0 m0] _. rewrite (Hnode c0 m0). eauto. }
  unfold NewCucumberExpression. rewrite Hparse.
  match goal with
  | |- context [rw ast ?st] =>
      destruct (contains_fails astNode_text CheckParameterTypeName
                  registry node Hfails ast Hin st eq_refl)
        as [err [[c' m'] E]]; rewrite E
  end.
  eauto.
Qed.

(** X9.  Construction does not depend on what memory holds beside the
    parameter types: from two memories with the same parameter types, the
    same expression and registry give the same error, the same panic, or
    compiled expressions with the same source, registry, tree regexp and
    stored entries. *)
Theorem construction_depends_on_parameter_types_only :
  forall (expression : string) (registry : ParameterTypeRegistry)
         (m1 m2 : memory),
    (forall l, objects m1 l = objects m2 l) ->
    sameConstruction (New expression registry m1)
      (New expression registry m2).
Proof.
  intros expression registry m1 m2 Hobjects.
  unfold sameConstruction, NewCucumberExpression.
  destruct (parse expression) as [ast | e]; [| reflexivity].
  set (c0 := {| source := expression; parameterTypes := None;
                treeRegexp := None; parameterTypeRegistry := registry |}).
  assert (Halike : alike (c0, m1) (c0, m2))
    by (repeat split; exact Hobjects).
  pose proof (rewriteNodeToRegex_alike ast _ _ Halike) as Hsame.
  destruct (rw ast (c0, m1)) as [[out1 | e1] [c1 m1']] eqn:E1;
    destruct (rw ast (c0, m2)) as [[out2 | e2] [c2 m2']] eqn:E2;
    simpl in Hsame; try discriminate.
  - inversion Hsame; subst out2.
    destruct (MustCompile out1) as [re | v]; [| reflexivity].
    cbn [fst snd source parameterTypeRegistry treeRegexp set_treeRegexp
           parameterTypes].
    pose proof (rewriteNodeToRegex_keeps _ _ _ _ _ _ E1)
      as [Hs1 [Hr1 _]].
    pose proof (rewriteNodeToRegex_keeps _ _ _ _ _ _ E2)
      as [Hs2 [Hr2 _]].
    cbn [fst snd] in Hs1, Hr1, Hs2, Hr2.
    split; [congruence |]. split; [congruence |]. split; [reflexivity |].
    apply rewrite_grows in E1. apply rewrite_grows in E2.
    destruct E1 as [_ [es1 [H1 F1]]]. destruct E2 as [_ [es2 [H2 F2]]].
    cbn [fst snd elems parameterTypes parameterTypeRegistry c0] in *.
    rewrite H1, H2. simpl. eapply entryFor_functional; eassumption.
  - inversion Hsame. reflexivity.
Qed.

End Independence.

(** ** Escaping *)

Lemma escapeRegexp_backslash (ch : ascii) :
  escapeRegexp ch = false -> ch <> "\"%char.
Proof.
  intros H ->. discriminate.
Qed.

(** X10.  Escaping loses nothing: two texts with the same escaped form are
    the same text. *)
Theorem processEscapes_is_injective :
  forall s t : string, processEscapes s = processEscapes t -> s = t.
Proof.
  induction s as [| ch s IH]; intros [| ch' t] H; simpl in H.
  - reflexivity.
  - destruct (escapeRegexp ch'); discriminate.
  - destruct (escapeRegexp ch); discriminate.
  - destruct (escapeRegexp ch) eqn:E; destruct (escapeRegexp ch') eqn:E'.
    + inversion H; subst. f_equal. apply IH. assumption.
    + inversion H; subst. apply escapeRegexp_backslash in E'. congruence.
    + inversion H; subst. apply escapeRegexp_backslash in E. congruence.
    + inversion H; subst. f_equal. apply IH. assumption.
Qed.

Lemma processEscapes_app (s t : string) :
  processEscapes (s ++ t) = processEscapes s ++ processEscapes t.
Proof.
  induction s as [| ch s IH]; simpl; [reflexivity |].
  rewrite IH. destruct (escapeRegexp ch); reflexivity.
Qed.

(** X11.  Escaping works character by character: the escaped form of two
    texts put together is the two escaped forms put together, so two Text
    nodes side by side in an Expression give the pattern one Text node with
    the whole text gives. *)
Theorem escaping_distributes_over_adjacent_texts :
  forall (s t : string),
    processEscapes (s ++ t) = processEscapes s ++ processEscapes t /\
    forall (astNode_text : astNode -> string)
           (CheckParameterTypeName : string -> option error)
           (children children' children'' : list astNode) (tok : token)
           (st : state),
      rewriteNodeToRegex astNode_text CheckParameterTypeName
        (mkAstNode expressionNode
           [mkAstNode textNode children (mkToken s);
            mkAstNode textNode children' (mkToken t)] tok) st
      = rewriteNodeToRegex astNode_text CheckParameterTypeName
          (mkAstNode expressionNode
             [mkAstNode textNode children'' (mkToken (s ++ t))] tok) st.
Proof.
  intros s t. split; [apply processEscapes_app |].
  intros astNode_text CheckParameterTypeName children children' children''
         tok st.
  rewrite !rewriteNodeToRegex_unfold. unfold rewriteNode.
  cbn [node_nodeType]. unfold rewriteExpression, rewriteNodesToRegex.
  cbn [node_nodes rewriteNodesLoop]. unfold bind, ret.
  cbn [rewriteNodeToRegex rewriteNode node_nodeType node_token text
         Nat.ltb Nat.leb].
  unfold ret. rewrite processEscapes_app.
  rewrite append_empty_r, !append_assoc. reflexivity.
Qed.

Lemma processEscapes_length (s : string) :
  String.length (processEscapes s)
  = String.length s + metacharacterCount s.
Proof.
  induction s as [| ch s IH]; [reflexivity |].
  cbn [processEscapes metacharacterCount].
  change (existsb (Ascii.eqb ch) metacharacters) with (escapeRegexp ch).
  destruct (escapeRegexp ch); cbn [String.length]; rewrite IH; lia.
Qed.

Lemma metacharacterCount_plain (s : string) :
  metacharacterCount s = 0 <-> plainText s.
Proof.
  unfold plainText. induction s as [| ch s IH];
    cbn [metacharacterCount list_ascii_of_string In].
  - split; [intros _ ch [] | reflexivity].
  - change (existsb (Ascii.eqb ch) metacharacters) with (escapeRegexp ch).
    destruct (escapeRegexp ch) eqn:E.
    + split; [discriminate |]. intros H. exfalso.
      apply (H ch); [left; reflexivity | apply escapeRegexp_spec; exact E].
    + simpl. rewrite IH. split.
      * intros H x [<- | Hx]; [| apply H; exact Hx].
        intros Hin. apply escapeRegexp_spec in Hin. congruence.
      * intros H x Hx. apply H. right. exact Hx.
Qed.

(** X12.  The escaped text is longer than the text by the number of
    metacharacters in it, and escaping leaves a text as it is exactly when
    the text has no metacharacter. *)
Theorem escaping_adds_one_character_per_metacharacter :
  forall s : string,
    String.length (processEscapes s)
    = String.length s + metacharacterCount s /\
    (processEscapes s = s <-> plainText s).
Proof.
  intros s. split; [apply processEscapes_length |].
  rewrite <- metacharacterCount_plain. split.
  - intros H. pose proof (processEscapes_length s) as Hlen.
    rewrite H in Hlen. lia.
  - intros H. induction s as [| ch s IH]; [reflexivity |].
    cbn [processEscapes metacharacterCount] in *.
    change (existsb (Ascii.eqb ch) metacharacters) with (escapeRegexp ch)
      in H.
    destruct (escapeRegexp ch); [discriminate |].
    rewrite IH by exact H. reflexivity.
Qed.

(** ** The capturing groups of a compiled pattern *)

Lemma scan_app (s t : string) :
  forall st : scanState,
    scan st (s ++ t)
    = (fst (scan (fst (scan st s)) t),
       snd (scan st s) + snd (scan (fst (scan st s)) t)).
Proof.
  induction s as [| ch s IH]; intros st; simpl.
  - destruct (scan st t); reflexivity.
  - destruct (scanStep st ch) as [st1 k]. rewrite IH.
    destruct (scan st1 s) as [st2 k2]. simpl.
    destruct (scan st2 t) as [st3 k3]. simpl. f_equal. lia.
Qed.

Lemma scan_cons (st : scanState) (ch : ascii) (rest : string) :
  scan st (String ch rest)
  = (fst (scan (fst (scanStep st ch)) rest),
     snd (scanStep st ch) + snd (scan (fst (scanStep st ch)) rest)).
Proof.
  simpl. destruct (scanStep st ch) as [st1 k]. simpl.
  destruct (scan st1 rest); reflexivity.
Qed.

Lemma scan_open (ch : ascii) (rest : string) :
  ch <> "?"%char ->
  scan sOpen (String ch rest)
  = (fst (scan sNormal (String ch rest)),
     S (snd (scan sNormal (String ch rest)))).
Proof.
  intros H. simpl. apply Ascii.eqb_neq in H. rewrite H.
  destruct (scan (scanNormal ch) rest); reflexivity.
Qed.

Lemma NumSubexp_closedWith (pattern : string) (k : nat) :
  closedWith pattern k <-> NumSubexp pattern = Some k.
Proof.
  unfold closedWith, NumSubexp. destruct (scan sNormal pattern) as [st j].
  split.
  - intros H. inversion H. reflexivity.
  - destruct st; intros H; inversion H. reflexivity.
Qed.

Lemma NumSubexp_groupsIn (f : string) (k : nat) :
  NumSubexp f = Some k -> groupsIn f = k.
Proof.
  intros H. apply NumSubexp_closedWith in H. unfold closedWith in H.
  unfold groupsIn. rewrite H. reflexivity.
Qed.

Lemma closedFragment_closedWith (f : string) :
  fst (scan sNormal f) = sNormal -> closedWith f (groupsIn f).
Proof.
  unfold closedWith, groupsIn. destruct (scan sNormal f) as [st k].
  simpl. intros ->. reflexivity.
Qed.

Lemma closedWith_app (s t : string) (k j : nat) :
  closedWith s k -> closedWith t j -> closedWith (s ++ t) (k + j).
Proof.
  unfold closedWith. intros Hs Ht.
  rewrite scan_app, Hs. cbn [fst snd]. rewrite Ht. reflexivity.
Qed.

Lemma closedWith_empty : closedWith EmptyString 0.
Proof. reflexivity. Qed.

Lemma escapeRegexp_scanNormal (ch : ascii) :
  escapeRegexp ch = false -> scanNormal ch = sNormal.
Proof.
  unfold escapeRegexp, escapeRegexpClass. cbn [existsb]. intros H.
  repeat (apply orb_false_elim in H; destruct H as [? H]).
  unfold scanNormal.
  repeat match goal with
         | E : Ascii.eqb ch _ = false |- _ => rewrite E; clear E
         end.
  reflexivity.
Qed.

(** The letter that starts a quotation is not among the characters
    [processEscapes] puts a backslash before. *)
Lemma escapeRegexp_no_quotation (ch : ascii) :
  escapeRegexp ch = true -> Ascii.eqb ch "Q" = false.
Proof.
  intros H. apply Ascii.eqb_neq. intros ->. discriminate.
Qed.

Lemma closedWith_escaped (s : string) : closedWith (processEscapes s) 0.
Proof.
  unfold closedWith. induction s as [| ch s IH]; [reflexivity |].
  cbn [processEscapes]. destruct (escapeRegexp ch) eqn:E.
  - do 2 rewrite scan_cons.
    cbn [scanStep scanNormal Ascii.eqb Bool.eqb fst snd].
    rewrite (escapeRegexp_no_quotation ch E). cbn [fst snd].
    rewrite IH. reflexivity.
  - rewrite scan_cons. cbn [scanStep fst snd].
    rewrite (escapeRegexp_scanNormal ch E), IH. reflexivity.
Qed.

Lemma closedWith_group (body : string) (k : nat) :
  match body with
  | String "?" _ => False
  | _ => True
  end ->
  closedWith body k ->
  closedWith (Sprintf "(%s)" body) (S k).
Proof.
  unfold closedWith. intros Hfirst Hscan.
  change (Sprintf "(%s)" body) with (String "(" (body ++ ")")).
  rewrite scan_cons.
  cbn [scanStep scanNormal Ascii.eqb Bool.eqb fst snd].
  assert (Hclose : scan sNormal (body ++ ")") = (sNormal, k)).
  { replace k with (k + 0) by lia.
    apply (closedWith_app body ")" k 0); [exact Hscan | reflexivity]. }
  assert (Hopen : scan sOpen (body ++ ")") = (sNormal, S k)).
  { destruct body as [| ch rest].
    - simpl in *. inversion Hscan. reflexivity.
    - change (String ch rest ++ ")") with (String ch (rest ++ ")")) in *.
      rewrite scan_open, Hclose; [reflexivity |].
      intros ->. exact Hfirst. }
  rewrite Hopen. reflexivity.
Qed.

Lemma closedWith_noncapturing (f : string) (k : nat) :
  closedWith f k -> closedWith (Sprintf "(?:%s)" f) k.
Proof.
  intros Hf. unfold closedWith.
  change (Sprintf "(?:%s)" f)
    with (String "(" (String "?" (String ":" (f ++ ")")))).
  do 3 rewrite scan_cons.
  cbn [scanStep scanNormal scanFlags Ascii.eqb Bool.eqb orb fst snd].
  replace k with (k + 0) by lia.
  rewrite (closedWith_app f ")" k 0 Hf eq_refl). reflexivity.
Qed.

Lemma closedWith_joined (fragments : list string) (counts : list nat) :
  Forall2 closedWith fragments counts ->
  closedWith (Join (map (Sprintf "(?:%s)") fragments) "|") (list_sum counts).
Proof.
  unfold Join. induction 1 as [| f k fs ks Hf Hrest IH]; [reflexivity |].
  cbn [list_sum fold_right].
  change (fold_right Nat.add 0 ks) with (list_sum ks).
  destruct fs as [| f' fs'].
  - inversion Hrest; subst. cbn [list_sum fold_right map String.concat].
    rewrite Nat.add_0_r. apply closedWith_noncapturing. exact Hf.
  - change (String.concat "|" (map (Sprintf "(?:%s)") (f :: f' :: fs')))
      with (Sprintf "(?:%s)" f
            ++ "|" ++ String.concat "|" (map (Sprintf "(?:%s)") (f' :: fs'))).
    apply closedWith_app; [apply closedWith_noncapturing; exact Hf |].
    replace (list_sum ks) with (0 + list_sum ks) by lia.
    apply closedWith_app; [reflexivity | exact IH].
Qed.

Lemma closedWith_buildCaptureRegexp (regexps : list Regexp) :
  Forall closedFragment (map Regexp_String regexps) ->
  closedWith (buildCaptureRegexp regexps)
    (1 + list_sum (map groupsIn (map Regexp_String regexps))).
Proof.
  intros Hclosed.
  assert (Hall : Forall2 closedWith (map Regexp_String regexps)
                   (map groupsIn (map Regexp_String regexps))).
  { induction Hclosed as [| f l [Hf _] Hl IH]; constructor.
    - apply closedFragment_closedWith. exact Hf.
    - exact IH. }
  assert (Hgeneral :
            closedWith
              (Sprintf "(%s)"
                 (Join (map (fun r => Sprintf "(?:%s)" (Regexp_String r))
                          regexps) "|"))
              (1 + list_sum (map groupsIn (map Regexp_String regexps)))).
  { apply closedWith_group.
    - destruct regexps as [| r [| r' l]]; simpl; exact I.
    - rewrite <- (map_map Regexp_String (Sprintf "(?:%s)")).
      apply closedWith_joined. exact Hall. }
  destruct regexps as [| r [| r' l]]; try exact Hgeneral.
  cbn [buildCaptureRegexp map list_sum fold_right]. rewrite Nat.add_0_r.
  inversion Hclosed as [| f l [Hf Hfirst] _]; subst.
  apply closedWith_group; [exact Hfirst |].
  apply closedFragment_closedWith. exact Hf.
Qed.

Lemma closedWith_joinFrom (delimiter : string) (fragments : list string)
    (counts : list nat) :
  closedWith delimiter 0 ->
  Forall2 closedWith fragments counts ->
  forall i, closedWith (joinFrom i delimiter fragments) (list_sum counts).
Proof.
  intros Hd. induction 1 as [| f k fs ks Hf Hrest IH]; intros i.
  - reflexivity.
  - cbn [joinFrom list_sum fold_right].
    change (k + fold_right Nat.add 0 ks) with (k + list_sum ks).
    replace (k + list_sum ks) with (0 + (k + list_sum ks)) by lia.
    apply closedWith_app.
    + destruct (Nat.ltb 0 i); [exact Hd | reflexivity].
    + apply closedWith_app; [exact Hf | apply IH].
Qed.

Lemma groupsOfEntry_same (m m' : memory) (entries : list pointer) :
  (forall l, objects m' l = objects m l) ->
  map (groupsOfEntry m') entries = map (groupsOfEntry m) entries.
Proof.
  intros H. apply map_ext. intros [p |]; simpl; [rewrite H |]; reflexivity.
Qed.

Section Counting.

Variable astNode_text : astNode -> string.
Variable CheckParameterTypeName : string -> option error.

Local Notation "'rw'" :=
  (rewriteNodeToRegex astNode_text CheckParameterTypeName).

Lemma closedTypes_kept (st st' : state) :
  keeps st st' ->
  closedTypes (parameterTypeRegistry (fst st)) (snd st) ->
  closedTypes (parameterTypeRegistry (fst st')) (snd st').
Proof.
  intros [_ [Hr [_ [Ho _]]]] H typeName p Hp.
  rewrite Ho. rewrite Hr in Hp. eapply H. exact Hp.
Qed.

Lemma counted_children (children : list astNode) (st st' : state)
    (fragments : list string) (delimiter : string) :
  closedWith delimiter 0 ->
  Forall (fun node => forall st out st',
              closedTypes (parameterTypeRegistry (fst st)) (snd st) ->
              rw node st = (Ok out, st') -> counted st st' out) children ->
  rewritesAll rw children st fragments st' ->
  closedTypes (parameterTypeRegistry (fst st)) (snd st) ->
  forall i, counted st st' (joinFrom i delimiter fragments).
Proof.
  intros Hd Hall H.
  induction H as [st | node rest st st1 st' s fs Hs Hrest IH];
    intros Hclosed i.
  - exists []. split; [symmetry; apply app_nil_r |].
    split; [intros e [] | reflexivity].
  - inversion Hall as [| n l Hnode Hl]; subst.
    destruct (Hnode _ _ _ Hclosed Hs) as [es [Hes [Hreg Hk]]].
    pose proof (rewriteNodeToRegex_keeps _ _ _ _ _ _ Hs) as Hkeeps.
    destruct (IH Hl (closedTypes_kept _ _ Hkeeps Hclosed) (S i))
      as [es' [Hes' [Hreg' Hk']]].
    destruct Hkeeps as [_ [Hr [_ [Ho _]]]].
    exists (es ++ es')%list. split; [| split].
    + rewrite Hes', Hes. symmetry. apply app_assoc.
    + intros e He. apply in_app_or in He. destruct He as [He | He].
      * apply Hreg. exact He.
      * destruct (Hreg' e He) as [typeName [Hn Hnn]].
        exists typeName. rewrite <- Hr. auto.
    + rewrite map_app, list_sum_app.
      rewrite (groupsOfEntry_same _ _ es' Ho) in Hk'.
      cbn [joinFrom].
      replace (list_sum (map (groupsOfEntry (snd st)) es)
               + list_sum (map (groupsOfEntry (snd st)) es'))
        with (0 + (list_sum (map (groupsOfEntry (snd st)) es)
                   + list_sum (map (groupsOfEntry (snd st)) es'))) by lia.
      apply closedWith_app.
      * destruct (Nat.ltb 0 i); [exact Hd | reflexivity].
      * apply closedWith_app; assumption.
Qed.

Lemma counted_wrapped (st st' : state) (prefix body suffix : string) :
  closedWith prefix 0 -> closedWith suffix 0 ->
  counted st st' body -> counted st st' (prefix ++ body ++ suffix).
Proof.
  intros Hp Hs [es [Hes [Hreg Hk]]]. exists es.
  split; [exact Hes |]. split; [exact Hreg |].
  replace (list_sum (map (groupsOfEntry (snd st)) es))
    with (0 + (list_sum (map (groupsOfEntry (snd st)) es) + 0)) by lia.
  apply closedWith_app; [exact Hp |].
  apply closedWith_app; assumption.
Qed.

Lemma rewriteNodeToRegex_counted (node : astNode) :
  forall st out st',
    closedTypes (parameterTypeRegistry (fst st)) (snd st) ->
    rw node st = (Ok out, st') -> counted st st' out.
Proof.
  induction node as [ty children tok IH] using astNode_forall_ind.
  intros st out st' Hclosed H.
  assert (Hcontainer :
            forall delimiter prefix suffix,
              closedWith delimiter 0 -> closedWith prefix 0 ->
              closedWith suffix 0 ->
              rewriteNodesToRegex rw children delimiter prefix suffix st
              = (Ok out, st') ->
              counted st st' out).
  { intros delimiter prefix suffix Hd Hp Hs Hn.
    apply rewriteNodesToRegex_sound in Hn. destruct Hn as [fs [Hfs ->]].
    apply counted_wrapped; [exact Hp | exact Hs |].
    rewrite <- joinFrom_Join. eapply counted_children; eassumption. }
  rewrite rewriteNodeToRegex_unfold in H. unfold rewriteNode in H.
  cbn [node_nodeType] in H. destruct st as [c m]. destruct ty.
  - unfold ret in H. inversion H; subst. exists [].
    split; [symmetry; apply app_nil_r |]. split; [intros e [] |].
    apply closedWith_escaped.
  - unfold rewriteOptional in H. cbn [node_nodes] in H.
    apply bind_Ok in H. destruct H as [u [st1 [H1 H]]].
    apply check_Ok in H1. destruct H1 as [_ ->].
    apply bind_Ok in H. destruct H as [u' [st2 [H2 H]]].
    apply check_Ok in H2. destruct H2 as [_ ->].
    eapply Hcontainer; [| | | exact H]; reflexivity.
  - unfold rewriteAlternation in H. cbn [node_nodes] in H.
    apply bind_Ok in H. destruct H as [u [st1 [H1 H]]].
    apply check_Ok in H1. destruct H1 as [_ ->].
    eapply Hcontainer; [| | | exact H]; reflexivity.
  - unfold rewriteAlternative in H. cbn [node_nodes] in H.
    eapply Hcontainer; [| | | exact H]; reflexivity.
  - destruct st' as [c' m']. apply rewriteParameter_Ok in H.
    destruct H as [p [_ [Hlookup [-> [-> ->]]]]].
    exists [Some p]. split; [apply elems_append |]. split.
    + intros e [<- | []].
      exists (astNode_text (mkAstNode parameterNode children tok)).
      split; [symmetry; exact Hlookup | discriminate].
    + cbn [map list_sum fold_right groupsOfEntry snd]. rewrite Nat.add_0_r.
      apply closedWith_buildCaptureRegexp. eapply Hclosed. exact Hlookup.
  - unfold rewriteExpression in H. cbn [node_nodes] in H.
    eapply Hcontainer; [| | | exact H]; reflexivity.
  - discriminate.
Qed.

Variable parse : string -> result astNode.
Variable MustCompile : string -> outcome Regexp.

Local Notation "'New'" :=
  (NewCucumberExpression astNode_text CheckParameterTypeName parse
     MustCompile).

(** X13.  The pattern of a compiled expression has one capturing group for
    every entry of the stored parameter-type list, and beside these only the
    groups of the types' own fragments: texts, optionals and alternations add
    none.  So when no fragment of the registry's types has a group of its
    own, the number of capturing groups is the number of stored parameter
    types.  This is for a registry whose types have closed fragments (the
    scanner reads each from its normal state back to it, and none begins
    with a question mark), and for a compiled pattern that has the text it
    was compiled from. *)
Theorem compiled_pattern_has_one_group_per_stored_type :
  forall (expression : string) (registry : ParameterTypeRegistry)
         (m m' : memory) (c : CucumberExpression),
    (forall pattern re,
        MustCompile pattern = Returned re -> Regexp_String re = pattern) ->
    closedTypes registry m ->
    New expression registry m = (Returned (Ok c), m') ->
    exists t : TreeRegexp,
      treeRegexp c = Some t /\
      NumSubexp (Regexp_String (TreeRegexp_Regexp t))
      = Some (list_sum (map (groupsOfEntry m')
                          (elems m' (parameterTypes c)))) /\
      (groupFreeTypes registry m ->
       NumSubexp (Regexp_String (TreeRegexp_Regexp t))
       = Some (length (elems m' (parameterTypes c)))).
Proof.
  intros expression registry m m' c Hcompile Hclosed H.
  unfold NewCucumberExpression in H.
  destruct (parse expression) as [ast | e]; [| discriminate].
  match type of H with
  | context [rw ast ?st] => destruct (rw ast st) as [[out | e] [c1 m1]] eqn:E
  end; [| discriminate].
  destruct (MustCompile out) as [re | v] eqn:Ere; [| discriminate].
  inversion H; subst. clear H.
  apply Hcompile in Ere.
  pose proof (rewriteNodeToRegex_keeps _ _ _ _ _ _ E)
    as [_ [_ [_ [Ho _]]]].
  apply rewriteNodeToRegex_counted in E; [| exact Hclosed].
  destruct E as [es [Hes [Hreg Hk]]].
  cbn [fst snd elems parameterTypes parameterTypeRegistry app] in *.
  exists (NewTreeRegexp re). split; [reflexivity |].
  cbn [TreeRegexp_Regexp set_treeRegexp parameterTypes]. rewrite Ere.
  apply NumSubexp_closedWith in Hk. rewrite Hk, Hes.
  rewrite (groupsOfEntry_same _ _ es Ho). split; [reflexivity |].
  intros Hfree. f_equal. clear Hes Hk.
  induction es as [| e es IH]; [reflexivity |].
  cbn [map list_sum fold_right length].
  change (fold_right Nat.add 0 (map (groupsOfEntry m) es))
    with (list_sum (map (groupsOfEntry m) es)).
  rewrite IH by (intros x Hx; apply Hreg; right; exact Hx).
  destruct (Hreg e (or_introl eq_refl)) as [typeName [He Hne]].
  destruct e as [p |]; [| congruence].
  symmetry in He. apply Hfree in He. cbn [groupsOfEntry].
  assert (Hzero : list_sum (map groupsIn
                              (map Regexp_String (regexps (objects m p))))
                  = 0).
  { induction He as [| f l Hf Hl IHl]; simpl; [reflexivity |].
    simpl in IHl. rewrite (NumSubexp_groupsIn f 0 Hf), IHl. reflexivity. }
  rewrite Hzero. reflexivity.
Qed.

End Counting.

(** ** The compiled expression and its accessors *)

Section Accessors.

Variable astNode_text : astNode -> string.
Variable CheckParameterTypeName : string -> option error.
Variable parse : string -> result astNode.
Variable MustCompile : string -> outcome Regexp.

Local Notation "'rw'" :=
  (rewriteNodeToRegex astNode_text CheckParameterTypeName).
Local Notation "'New'" :=
  (NewCucumberExpression astNode_text CheckParameterTypeName parse
     MustCompile).

(** X14.  A compiled expression gives back what it was made from: [Source]
    returns the expression text, the registry is the one given, and [Regexp]
    does not panic and returns what [MustCompile] made of the pattern the
    tree of the expression rewrites to. *)
Theorem compiled_expression_gives_back_source_and_pattern :
  forall (expression : string) (registry : ParameterTypeRegistry)
         (m m' : memory) (c : CucumberExpression),
    New expression registry m = (Returned (Ok c), m') ->
    CucumberExpression_Source c = expression /\
    parameterTypeRegistry c = registry /\
    exists (ast : astNode) (pattern : string) (re : Regexp)
           (c' : CucumberExpression),
      parse expression = Ok ast /\
      rw ast ({| source := expression; parameterTypes := None;
                 treeRegexp := None; parameterTypeRegistry := registry |}, m)
      = (Ok pattern, (c', m')) /\
      MustCompile pattern = Returned re /\
      CucumberExpression_Regexp c = Returned re.
Proof.
  intros expression registry m m' c H.
  unfold NewCucumberExpression in H.
  destruct (parse expression) as [ast | e] eqn:Eparse; [| discriminate].
  match type of H with
  | context [rw ast ?st] => destruct (rw ast st) as [[out | e] [c1 m1]] eqn:E
  end; [| discriminate].
  destruct (MustCompile out) as [re | v] eqn:Ere; [| discriminate].
  inversion H; subst. clear H.
  pose proof (rewriteNodeToRegex_keeps _ _ _ _ _ _ E) as [Hs [Hr _]].
  cbn [fst source parameterTypeRegistry] in Hs, Hr.
  split; [exact Hs |]. split; [exact Hr |].
  exists ast, out, re, c1. repeat split; auto.
Qed.

End Accessors.

(** ** More on [Match] *)

Section MatchLoops.

Variable deAnonymized :
  ParameterType -> reflectType -> Transformer -> result ParameterType.
Variable c : CucumberExpression.
Variable a : loc.

(** The hints are read at the anonymous entries only. *)
Lemma matchLoop_hints (hints hints' : list reflectType) (n : nat) :
  forall (i : nat) (m : memory),
    a < next m ->
    (forall j p, i <= j -> nth_error (arrays m a) j = Some (Some p) ->
                 p < next m) ->
    (forall j p, i <= j -> nth_error (arrays m a) j = Some (Some p) ->
                 isAnonymous (objects m p) = true ->
                 hintOrDefault j hints = hintOrDefault j hints') ->
    matchLoop deAnonymized c hints a n i m
    = matchLoop deAnonymized c hints' a n i m.
Proof.
  induction n as [| n IH]; intros i m Ha Hptrs Hhints; [reflexivity |].
  cbn [matchLoop].
  destruct (nth_error (arrays m a) i) as [[p |] |] eqn:E; try reflexivity.
  destruct (isAnonymous (objects m p)) eqn:Hanon.
  - rewrite <- (Hhints i p (le_n i) E Hanon).
    unfold deAnonymize.
    destruct (deAnonymized (objects m p) (hintOrDefault i hints)
                (objectMapperTransformer c (hintOrDefault i hints)))
      as [v |]; [| reflexivity].
    cbn [allocObject]. apply IH; cbn [store next objects arrays].
    + lia.
    + intros j q Hj Hnth. rewrite update_same in Hnth.
      rewrite nth_error_setNth_other in Hnth by lia.
      apply Hptrs in Hnth; lia.
    + intros j q Hj Hnth Hq. rewrite update_same in Hnth.
      rewrite nth_error_setNth_other in Hnth by lia.
      pose proof (Hptrs j q ltac:(lia) Hnth) as Hlt.
      rewrite update_other in Hq by lia.
      apply (Hhints j q); [lia | exact Hnth | exact Hq].
  - apply IH; [exact Ha | |].
    + intros j q Hj. apply Hptrs. lia.
    + intros j q Hj. apply Hhints. lia.
Qed.

Variable typeHints : list reflectType.

Local Notation "'loop'" := (matchLoop deAnonymized c typeHints a).

(** When the loop runs to its end, the working copy has the length it had,
    an entry that is not anonymous is the entry it was, and an entry that is
    anonymous has been replaced by the address of a new object. *)
Lemma matchLoop_entries (n : nat) :
  forall (i : nat) (m m' : memory),
    loop n i m = (Returned None, m') ->
    a < next m ->
    length (arrays m' a) = length (arrays m a) /\
    forall (j : nat) (p : loc),
      i <= j < i + n ->
      nth_error (arrays m a) j = Some (Some p) ->
      p < next m ->
      if isAnonymous (objects m p)
      then exists q, nth_error (arrays m' a) j = Some (Some q) /\
                     next m <= q < next m'
      else nth_error (arrays m' a) j = Some (Some p).
Proof.
  induction n as [| n IH]; intros i m m' H Ha.
  - cbn [matchLoop] in H. inversion H; subst. split; [reflexivity |].
    intros j p Hj. lia.
  - cbn [matchLoop] in H.
    destruct (nth_error (arrays m a) i) as [[p0 |] |] eqn:E;
      try discriminate.
    destruct (isAnonymous (objects m p0)) eqn:Hanon.
    + unfold deAnonymize in H.
      destruct (deAnonymized (objects m p0) (hintOrDefault i typeHints)
                  (objectMapperTransformer c (hintOrDefault i typeHints)))
        as [v |]; [| discriminate].
      cbn [allocObject] in H.
      pose proof (matchLoop_frame _ _ _ _ _ _ _ _ _ H) as Hframe.
      destruct (IH _ _ _ H) as [Hlen Hrest];
        [cbn [store next]; lia |].
      cbn [store next objects arrays] in *.
      rewrite update_same in *. rewrite length_setNth in Hlen.
      destruct Hframe as [Hnext [_ [_ Hkeep]]]; [lia |].
      split; [exact Hlen |].
      intros j p Hj Hnth Hp.
      destruct (Nat.eq_dec j i) as [-> | Hne].
      * rewrite Hnth in E. inversion E; subst p0. rewrite Hanon.
        exists (next m). split; [| lia].
        rewrite Hkeep by lia.
        apply nth_error_setNth_same. apply nth_error_Some. congruence.
      * specialize (Hrest j p ltac:(lia)).
        rewrite nth_error_setNth_other in Hrest by lia.
        specialize (Hrest Hnth ltac:(lia)).
        rewrite update_other in Hrest by lia.
        destruct (isAnonymous (objects m p)); [| exact Hrest].
        destruct Hrest as [q [Hq Hrange]]. exists q. split; [exact Hq | lia].
    + destruct (IH _ _ _ H Ha) as [Hlen Hrest]. split; [exact Hlen |].
      intros j p Hj Hnth Hp.
      destruct (Nat.eq_dec j i) as [-> | Hne].
      * rewrite Hnth in E. inversion E; subst p0. rewrite Hanon.
        pose proof (matchLoop_frame _ _ _ _ _ _ _ _ _ H Ha)
          as [_ [_ [_ Hkeep]]].
        rewrite Hkeep by lia. exact Hnth.
      * apply Hrest; [lia | exact Hnth | exact Hp].
Qed.

(** The first de-anonymization that fails ends the loop with its error. *)
Lemma matchLoop_first_error (n : nat) :
  forall (i k : nat) (m : memory) (p : loc) (err : error),
    a < next m ->
    (forall j q, i <= j -> nth_error (arrays m a) j = Some (Some q) ->
                 q < next m) ->
    i <= k < i + n ->
    nth_error (arrays m a) k = Some (Some p) ->
    isAnonymous (objects m p) = true ->
    deAnonymized (objects m p) (hintOrDefault k typeHints)
      (objectMapperTransformer c (hintOrDefault k typeHints)) = Err err ->
    (forall j, i <= j < k ->
               exists q,
                 nth_error (arrays m a) j = Some (Some q) /\
                 (isAnonymous (objects m q) = true ->
                  exists v,
                    deAnonymized (objects m q) (hintOrDefault j typeHints)
                      (objectMapperTransformer c (hintOrDefault j typeHints))
                    = Ok v)) ->
    exists m', loop n i m = (Returned (Some err), m').
Proof.
  induction n as [| n IH];
    intros i k m p err Ha Hptrs Hk Hnth Hanon Hfail Hbefore; [lia |].
  cbn [matchLoop].
  destruct (Nat.eq_dec k i) as [-> | Hne].
  - rewrite Hnth, Hanon. unfold deAnonymize. rewrite Hfail. eauto.
  - destruct (Hbefore i ltac:(lia)) as [q [Hq Hok]]. rewrite Hq.
    destruct (isAnonymous (objects m q)) eqn:Hqanon.
    + destruct (Hok eq_refl) as [v Hv]. unfold deAnonymize. rewrite Hv.
      cbn [allocObject].
      pose proof (Hptrs k p ltac:(lia) Hnth) as Hp.
      apply (IH (S i) k _ p err); cbn [store next objects arrays];
        try rewrite update_same.
      * lia.
      * intros j r Hj Hr. rewrite nth_error_setNth_other in Hr by lia.
        apply Hptrs in Hr; lia.
      * lia.
      * rewrite nth_error_setNth_other by lia. exact Hnth.
      * rewrite update_other by lia. exact Hanon.
      * rewrite update_other by lia. exact Hfail.
      * intros j Hj. destruct (Hbefore j ltac:(lia)) as [r [Hr Hrok]].
        exists r. rewrite nth_error_setNth_other by lia.
        split; [exact Hr |].
        pose proof (Hptrs j r ltac:(lia) Hr) as Hlt.
        rewrite update_other by lia. exact Hrok.
    + apply (IH (S i) k m p err); auto; try lia.
      * intros j r Hj. apply Hptrs. lia.
      * intros j Hj. apply Hbefore. lia.
Qed.

End MatchLoops.

Lemma hintOrDefault_firstn (typeHints : list reflectType) (n i : nat) :
  i < n ->
  hintOrDefault i (firstn n typeHints) = hintOrDefault i typeHints.
Proof.
  intros Hi. unfold hintOrDefault. rewrite length_firstn.
  destruct (Nat.ltb i (length typeHints)) eqn:E.
  - apply Nat.ltb_lt in E.
    assert (E' : Nat.ltb i (Nat.min n (length typeHints)) = true)
      by (apply Nat.ltb_lt; lia).
    rewrite E'. rewrite nth_firstn.
    assert (E'' : Nat.ltb i n = true) by (apply Nat.ltb_lt; lia).
    rewrite E''. reflexivity.
  - apply Nat.ltb_ge in E.
    assert (E' : Nat.ltb i (Nat.min n (length typeHints)) = false)
      by (apply Nat.ltb_ge; lia).
    rewrite E'. reflexivity.
Qed.

Section MoreMatch.

Variable deAnonymized :
  ParameterType -> reflectType -> Transformer -> result ParameterType.
Variable Argument : Type.
Variable BuildArguments :
  option TreeRegexp -> string -> list pointer -> memory ->
  outcome (option (list Argument)).

Local Notation "'copyOf'" := (workingCopy deAnonymized).
Local Notation "'match_'" := (Match deAnonymized Argument BuildArguments).

Lemma workingCopy_hints (c : CucumberExpression)
    (hints hints' : list reflectType) (m : memory) :
  wellStored m (parameterTypes c) ->
  (forall i p,
      nth_error (elems m (parameterTypes c)) i = Some (Some p) ->
      isAnonymous (objects m p) = true ->
      hintOrDefault i hints = hintOrDefault i hints') ->
  copyOf c hints m = copyOf c hints' m.
Proof.
  intros [Halloc Hptrs] Hhints. rewrite !workingCopy_unfold. cbv zeta.
  destruct (make_copy m (parameterTypes c) Halloc)
    as [Ha [Hnext [Hobj [Hcopy _]]]].
  rewrite (matchLoop_hints deAnonymized c _ hints hints'); [reflexivity | | |].
  - lia.
  - intros j p _ Hnth. rewrite Hcopy in Hnth. apply Hptrs in Hnth. lia.
  - intros j p _ Hnth Hanon. rewrite Hcopy in Hnth. rewrite Hobj in Hanon.
    eapply Hhints; eassumption.
Qed.

(** X15.  Match reads the hints at the anonymous positions only: two hint
    lists that give the same hint, given or defaulted, at every position
    whose stored type is anonymous give the same result and memory.  So
    hints beyond the last parameter are ignored. *)
Theorem Match_reads_hints_at_anonymous_positions_only :
  forall (c : CucumberExpression) (text : string)
         (typeHints typeHints' : list reflectType) (m : memory),
    wellStored m (parameterTypes c) ->
    ((forall i p,
         nth_error (elems m (parameterTypes c)) i = Some (Some p) ->
         isAnonymous (objects m p) = true ->
         hintOrDefault i typeHints = hintOrDefault i typeHints') ->
     match_ c text typeHints m = match_ c text typeHints' m) /\
    match_ c text
      (firstn (length (elems m (parameterTypes c))) typeHints) m
    = match_ c text typeHints m.
Proof.
  intros c text typeHints typeHints' m Hwell. split.
  - intros Hhints. unfold Match.
    rewrite (workingCopy_hints c typeHints typeHints' m Hwell Hhints).
    reflexivity.
  - unfold Match.
    rewrite (workingCopy_hints c
               (firstn (length (elems m (parameterTypes c))) typeHints)
               typeHints m Hwell); [reflexivity |].
    intros i p Hnth _. apply hintOrDefault_firstn.
    apply nth_error_Some. congruence.
Qed.

(** X17.  The parameter types Match hands to BuildArguments are as many as
    the stored ones; at a position whose stored type is not anonymous the
    entry is the stored pointer itself, and at an anonymous position it is
    the address of an object allocated in this call, which no stored entry
    and no earlier pointer can be. *)
Theorem working_copy_keeps_named_types_and_allocates_the_others :
  forall (c : CucumberExpression) (text : string)
         (typeHints : list reflectType) (m m' : memory)
         (args : option (list Argument)),
    wellStored m (parameterTypes c) ->
    match_ c text typeHints m = (Returned (args, None), m') ->
    exists a : loc,
      next m <= a /\
      BuildArguments (treeRegexp c) text (arrays m' a) m' = Returned args /\
      length (arrays m' a) = length (elems m (parameterTypes c)) /\
      forall (i : nat) (p : loc),
        nth_error (elems m (parameterTypes c)) i = Some (Some p) ->
        if isAnonymous (objects m p)
        then exists q, nth_error (arrays m' a) i = Some (Some q) /\
                       next m < q < next m'
        else nth_error (arrays m' a) i = Some (Some p).
Proof.
  intros c text typeHints m m' args [Halloc Hptrs] H. unfold Match in H.
  destruct (copyOf c typeHints m) as [[[a | err] | v0] m1] eqn:E;
    try discriminate.
  destruct (BuildArguments (treeRegexp c) text (arrays m1 a) m1)
    as [args' | v1] eqn:B; [| discriminate].
  inversion H; subst args' m1. clear H.
  rewrite workingCopy_unfold in E. cbv zeta in E.
  destruct (make_copy m (parameterTypes c) Halloc)
    as [Ha [Hnext [Hobj [Hcopy _]]]].
  set (a0 := fst (make (length (elems m (parameterTypes c))) m)) in *.
  set (m2 := copy a0 (parameterTypes c)
               (snd (make (length (elems m (parameterTypes c))) m))) in *.
  destruct (matchLoop deAnonymized c typeHints a0 (length (arrays m2 a0)) 0 m2)
    as [[[err |] | v0] m3] eqn:L; try discriminate.
  inversion E; subst a m3. clear E.
  destruct (matchLoop_entries deAnonymized c a0 typeHints _ _ _ _ L)
    as [Hlen Hentries]; [lia |].
  exists a0. split; [lia |]. split; [exact B |].
  split; [rewrite Hlen, Hcopy; reflexivity |].
  intros i p Hnth.
  specialize (Hentries i p).
  rewrite Hcopy, Hobj in Hentries.
  assert (Hi : i < length (elems m (parameterTypes c)))
    by (apply nth_error_Some; congruence).
  specialize (Hentries ltac:(lia) Hnth).
  pose proof (Hptrs i p Hnth) as Hp.
  specialize (Hentries ltac:(lia)).
  destruct (isAnonymous (objects m p)); [| exact Hentries].
  destruct Hentries as [q [Hq Hrange]]. exists q. split; [exact Hq | lia].
Qed.

(** X18.  Match fails fast: when the de-anonymization at an anonymous
    position fails and those at the anonymous positions before it succeed,
    Match returns nil arguments with that error, and BuildArguments is not
    asked. *)
Theorem first_failing_deAnonymization_is_the_error_of_Match :
  forall (c : CucumberExpression) (text : string)
         (typeHints : list reflectType) (m : memory)
         (k : nat) (p : loc) (err : error),
    wellStored m (parameterTypes c) ->
    nth_error (elems m (parameterTypes c)) k = Some (Some p) ->
    isAnonymous (objects m p) = true ->
    deAnonymized (objects m p) (hintOrDefault k typeHints)
      (objectMapperTransformer c (hintOrDefault k typeHints)) = Err err ->
    (forall j, j < k ->
               exists q,
                 nth_error (elems m (parameterTypes c)) j = Some (Some q) /\
                 (isAnonymous (objects m q) = true ->
                  exists v,
                    deAnonymized (objects m q) (hintOrDefault j typeHints)
                      (objectMapperTransformer c (hintOrDefault j typeHints))
                    = Ok v)) ->
    exists m', match_ c text typeHints m = (Returned (None, Some err), m').
Proof.
  intros c text typeHints m k p err [Halloc Hptrs] Hnth Hanon Hfail Hbefore.
  unfold Match. rewrite workingCopy_unfold. cbv zeta.
  destruct (make_copy m (parameterTypes c) Halloc)
    as [Ha [Hnext [Hobj [Hcopy _]]]].
  set (a0 := fst (make (length (elems m (parameterTypes c))) m)) in *.
  set (m2 := copy a0 (parameterTypes c)
               (snd (make (length (elems m (parameterTypes c))) m))) in *.
  destruct (matchLoop_first_error deAnonymized c a0 typeHints
              (length (arrays m2 a0)) 0 k m2 p err) as [m' Hloop].
  - lia.
  - intros j q _ Hq. rewrite Hcopy in Hq. apply Hptrs in Hq. lia.
  - rewrite Hcopy. split; [lia |]. apply nth_error_Some. congruence.
  - rewrite Hcopy. exact Hnth.
  - rewrite Hobj. exact Hanon.
  - rewrite Hobj. exact Hfail.
  - intros j Hj. destruct (Hbefore j ltac:(lia)) as [q [Hq Hok]].
    exists q. rewrite Hcopy, Hobj. auto.
  - rewrite Hloop. eauto.
Qed.

End MoreMatch.

(** ** Construction, then [Match] *)

Section CompileThenMatch.

Variable astNode_text : astNode -> string.
Variable CheckParameterTypeName : string -> option error.
Variable parse : string -> result astNode.
Variable MustCompile : string -> outcome Regexp.
Variable deAnonymized :
  ParameterType -> reflectType -> Transformer -> result ParameterType.
Variable Argument : Type.
Variable BuildArguments :
  option TreeRegexp -> string -> list pointer -> memory ->
  outcome (option (list Argument)).

Local Notation "'New'" :=
  (NewCucumberExpression astNode_text CheckParameterTypeName parse
     MustCompile).
Local Notation "'match_'" := (Match deAnonymized Argument BuildArguments).

Lemma NewCucumberExpression_no_nil (expression : string)
    (registry : ParameterTypeRegistry) (m m' : memory)
    (c : CucumberExpression) :
  New expression registry m = (Returned (Ok c), m') ->
  Forall (fun e => e <> None) (elems m' (parameterTypes c)).
Proof.
  intros H. unfold NewCucumberExpression in H.
  destruct (parse expression) as [ast | e]; [| discriminate].
  match type of H with
  | context [rewriteNodeToRegex _ _ ast ?st] =>
      destruct (rewriteNodeToRegex astNode_text CheckParameterTypeName ast st)
        as [[out | e] [c1 m1]] eqn:E
  end; [| discriminate].
  destruct (MustCompile out); [| discriminate].
  inversion H; subst. clear H.
  apply rewrite_grows in E. destruct E as [_ [entries [Hentries Hall]]].
  cbn [fst snd elems parameterTypes set_treeRegexp app] in *.
  rewrite Hentries. clear Hentries.
  induction Hall as [| n e l es [_ [_ Hne]] Hrest IH]; constructor; auto.
Qed.

Lemma workingCopy_next (c : CucumberExpression)
    (typeHints : list reflectType) (m : memory) :
  allocated m (parameterTypes c) ->
  next m <= next (snd (workingCopy deAnonymized c typeHints m)).
Proof.
  intros Halloc. rewrite workingCopy_unfold. cbv zeta.
  destruct (make_copy m (parameterTypes c) Halloc)
    as [Ha [Hnext [_ _]]].
  set (a0 := fst (make (length (elems m (parameterTypes c))) m)) in *.
  set (m2 := copy a0 (parameterTypes c)
               (snd (make (length (elems m (parameterTypes c))) m))) in *.
  destruct (matchLoop deAnonymized c typeHints a0 (length (arrays m2 a0)) 0 m2)
    as [r m3] eqn:E.
  apply matchLoop_frame in E; [| lia]. destruct E as [Hle _].
  destruct r as [[err |] | v]; cbn [snd]; lia.
Qed.

Lemma Match_keeps_wellStored (c : CucumberExpression) (text : string)
    (typeHints : list reflectType) (m : memory) :
  wellStored m (parameterTypes c) ->
  wellStored (snd (match_ c text typeHints m)) (parameterTypes c).
Proof.
  intros [Halloc Hptrs].
  pose proof (Match_frame deAnonymized Argument BuildArguments
                c text typeHints m Halloc) as [Helems _].
  pose proof (workingCopy_next c typeHints m Halloc) as Hnext.
  rewrite <- (Match_memory deAnonymized Argument BuildArguments c text)
    in Hnext.
  split.
  - destruct (parameterTypes c) as [l |]; simpl in *; [lia | exact I].
  - intros i p Hnth. rewrite Helems in Hnth. apply Hptrs in Hnth. lia.
Qed.

(** X19.  A compiled expression is ready for Match, and stays so: when the
    parameter types of the registry are in memory, the stored list of the
    expression NewCucumberExpression returns is allocated, its entries are
    not nil and point to parameter types in memory; and after any call of
    Match the same holds in the memory the call leaves, with the same
    entries. *)
Theorem compiled_expression_stays_ready_for_Match :
  forall (expression : string) (registry : ParameterTypeRegistry)
         (m m1 : memory) (c : CucumberExpression),
    registryAllocated registry m ->
    New expression registry m = (Returned (Ok c), m1) ->
    wellStored m1 (parameterTypes c) /\
    Forall (fun e => e <> None) (elems m1 (parameterTypes c)) /\
    forall (text : string) (typeHints : list reflectType),
      wellStored (snd (match_ c text typeHints m1)) (parameterTypes c) /\
      elems (snd (match_ c text typeHints m1)) (parameterTypes c)
      = elems m1 (parameterTypes c).
Proof.
  intros expression registry m m1 c Hreg H.
  assert (Hwell : wellStored m1 (parameterTypes c)).
  { eapply NewCucumberExpression_wellStored; eassumption. }
  split; [exact Hwell |].
  split; [eapply NewCucumberExpression_no_nil; exact H |].
  intros text typeHints. split.
  - apply Match_keeps_wellStored. exact Hwell.
  - apply Match_frame. apply Hwell.
Qed.

End CompileThenMatch.

(** ** The theorems on the sample *)

Import Sample.

Lemma stored_parameter_types_witness :
  sampleParse cukesSource = Ok cukes /\
  compile cukesSource = (Returned (Ok compiledCukes), memoryCukes) /\
  Forall2 (entryFor nodeText registry) (parameterNodes cukes)
    (elems memoryCukes (parameterTypes compiledCukes)) /\
  Forall2 (entryFor nodeText registry) (allParameterNodes cukes)
    (elems memoryCukes (parameterTypes compiledCukes)).
Proof.
  assert (Hparse : sampleParse cukesSource = Ok cukes) by reflexivity.
  assert (Hnew : compile cukesSource
                 = (Returned (Ok compiledCukes), memoryCukes)) by reflexivity.
  split; [exact Hparse |]. split; [exact Hnew |].
  destruct (stored_parameter_types_follow_parameter_nodes
              nodeText checkName sampleParse mustCompile
              cukesSource registry memory0 memoryCukes cukes compiledCukes
              Hparse Hnew) as [Hvisited Hall].
  split; [exact Hvisited | exact (Hall eq_refl)].
Defined.

Lemma expression_node_witness :
  rewritesAll rewriteSample (node_nodes cukes) (start cukesSource)
    cukesFragments (snd (rewriteSample cukes (start cukesSource))) /\
  rewriteSample cukes (start cukesSource)
  = (Ok ("^" ++ concatenation cukesFragments ++ "$"),
     snd (rewriteSample cukes (start cukesSource))).
Proof.
  assert (Hall : rewritesAll rewriteSample (node_nodes cukes)
                   (start cukesSource) cukesFragments
                   (snd (rewriteSample cukes (start cukesSource)))).
  { unfold cukes, ExpressionN, cukesFragments. cbn [node_nodes].
    repeat (eapply rewritesAll_cons; [reflexivity |]).
    apply rewritesAll_nil. }
  split; [exact Hall |].
  exact (expression_node_is_anchored_concatenation nodeText checkName
           (node_nodes cukes) (mkToken EmptyString) (start cukesSource) _
           cukesFragments Hall).
Defined.



Lemma undefined_parameter_type_witness :
  node_nodeType (ParameterN "cuke") = parameterNode /\
  checkName (nodeText (ParameterN "cuke")) = None /\
  lookup (nodeText (ParameterN "cuke")) = None /\
  rewriteSample (ParameterN "cuke") (start undefinedSource)
  = (Err (UndefinedParameterTypeError "cuke"), start undefinedSource) /\
  exists err m', compile undefinedSource = (Returned (Err err), m').
Proof.
  assert (Hkind : node_nodeType (ParameterN "cuke") = parameterNode)
    by reflexivity.
  assert (Hcheck : checkName (nodeText (ParameterN "cuke")) = None)
    by reflexivity.
  assert (Hlookup : LookupByTypeName registry (nodeText (ParameterN "cuke"))
                    = None) by reflexivity.
  assert (Hin : In (ParameterN "cuke") (parameterNodes undefined))
    by (simpl; left; reflexivity).
  destruct (undefined_parameter_type_fails_construction
              nodeText checkName sampleParse mustCompile registry
              (ParameterN "cuke") Hkind Hcheck Hlookup) as [Hnode Hnew].
  split; [exact Hkind |]. split; [exact Hcheck |]. split; [exact Hlookup |].
  split.
  - exact (Hnode (fresh undefinedSource) memory0 eq_refl).
  - exact (Hnew undefinedSource undefined memory0 eq_refl Hin).
Defined.

Lemma parameter_node_group_witness :
  checkName (nodeText (ParameterN "int")) = None /\
  lookup (nodeText (ParameterN "int")) = Some 1 /\
  exists out st',
    rewriteSample (ParameterN "int") (start "{int}") = (Ok out, st') /\
    out = "((?:-?\d+)|(?:\d+))".
Proof.
  assert (Hcheck : checkName (nodeText (ParameterN "int")) = None)
    by reflexivity.
  assert (Hlookup : LookupByTypeName (parameterTypeRegistry (fresh "{int}"))
                      (nodeText (ParameterN "int")) = Some 1) by reflexivity.
  destruct (parameter_node_emits_one_wrapping_group nodeText checkName
              [TextN "int"] (mkToken EmptyString) (fresh "{int}") memory0 1
              Hcheck Hlookup) as [out [st' [Hrw [_ Hmany]]]].
  split; [exact Hcheck |]. split; [exact Hlookup |].
  exists out, st'. split; [exact Hrw |].
  apply Hmany. apply le_n.
Defined.

(** C4 as stated fails: the fragment emitted for a type whose fragment has
    groups of its own holds more than one capturing group. *)
Lemma parameter_with_groups_counterexample :
  checkName (nodeText (ParameterN "pair")) = None /\
  lookup (nodeText (ParameterN "pair")) = Some 3 /\
  fst (rewriteSample (ParameterN "pair") (start "{pair}")) = Ok "((a)(b))" /\
  NumSubexp "((a)(b))" = Some 3 /\
  NumSubexp "((a)(b))" <> Some 1.
Proof.
  repeat split; try reflexivity. discriminate.
Qed.

Lemma memoryAny_wellStored : wellStored memoryAny (parameterTypes compiledAny).
Proof.
  split.
  - exact (le_n 5).
  - intros i p H.
    change (elems memoryAny (parameterTypes compiledAny)) with [Some 0] in H.
    destruct i as [| i]; simpl in H.
    + injection H as <-. repeat constructor.
    + destruct i; discriminate.
Defined.

Lemma memoryCukes_no_anonymous :
  forall i p,
    nth_error (elems memoryCukes (parameterTypes compiledCukes)) i
    = Some (Some p) ->
    isAnonymous (objects memoryCukes p) = false.
Proof.
  intros i p H.
  change (elems memoryCukes (parameterTypes compiledCukes))
    with [Some 1; Some 2; Some 1] in H.
  destruct i as [| [| [| i]]]; simpl in H;
    try (injection H as <-; reflexivity).
  destruct i; discriminate.
Defined.

Lemma Match_frame_witness :
  allocated memoryAny (parameterTypes compiledAny) /\
  elems (snd (matchSample compiledAny "42" [intType] memoryAny))
    (parameterTypes compiledAny)
  = elems memoryAny (parameterTypes compiledAny) /\
  (forall l, l < next memoryAny ->
             objects (snd (matchSample compiledAny "42" [intType] memoryAny)) l
             = objects memoryAny l /\
             arrays (snd (matchSample compiledAny "42" [intType] memoryAny)) l
             = arrays memoryAny l).
Proof.
  assert (Halloc : allocated memoryAny (parameterTypes compiledAny))
    by exact (le_n 5).
  split; [exact Halloc |].
  exact (Match_leaves_stored_list_and_parameter_types
           sampleDeAnonymized value buildWhole
           compiledAny "42" [intType] memoryAny Halloc).
Defined.

Lemma anonymous_position_hint_witness :
  wellStored memoryAny (parameterTypes compiledAny) /\
  hintOrDefault 1 [intType] = stringType /\
  hintOrDefault 0 [intType] = intType /\
  exists a : loc,
    next memoryAny <= a /\
    buildWhole (treeRegexp compiledAny) "42"
      (arrays (snd (matchSample compiledAny "42" [intType] memoryAny)) a)
      (snd (matchSample compiledAny "42" [intType] memoryAny))
    = Returned (Some [vInt 42]) /\
    exists q : loc,
      nth_error
        (arrays (snd (matchSample compiledAny "42" [intType] memoryAny)) a) 0
      = Some (Some q) /\
      sampleDeAnonymized (objects memoryAny 0) intType
        (objectMapperTransformer compiledAny intType)
      = Ok (objects (snd (matchSample compiledAny "42" [intType] memoryAny)) q).
Proof.
  destruct (anonymous_positions_use_hint_or_string_type
              sampleDeAnonymized value buildWhole
              compiledAny "42" [intType] memoryAny memoryAny_wellStored)
    as [Hmissing [Hgiven Hcall]].
  split; [exact memoryAny_wellStored |].
  split; [exact (Hmissing 1 (le_n 2)) |].
  split; [exact (Hgiven 0 intType eq_refl) |].
  destruct (Hcall (Some [vInt 42])
              (snd (matchSample compiledAny "42" [intType] memoryAny))
              eq_refl) as [a [Hfresh [Hbuild Hentries]]].
  exists a. split; [exact Hfresh |]. split; [exact Hbuild |].
  exact (Hentries 0 0 eq_refl eq_refl).
Defined.

Lemma Match_ignores_hints_witness :
  allocated memoryCukes (parameterTypes compiledCukes) /\
  (forall i p,
      nth_error (elems memoryCukes (parameterTypes compiledCukes)) i
      = Some (Some p) ->
      isAnonymous (objects memoryCukes p) = false) /\
  matchSample compiledCukes "I have 3 cukes or 4" [] memoryCukes
  = matchSample compiledCukes "I have 3 cukes or 4" [intType; boolType]
      memoryCukes.
Proof.
  assert (Halloc : allocated memoryCukes (parameterTypes compiledCukes))
    by exact (le_n 7).
  split; [exact Halloc |]. split; [exact memoryCukes_no_anonymous |].
  exact (Match_without_anonymous_types_ignores_hints
           sampleDeAnonymized value buildWhole
           compiledCukes "I have 3 cukes or 4" [] [intType; boolType]
           memoryCukes Halloc memoryCukes_no_anonymous).
Defined.

Lemma transform_failure_witness :
  wellStored memoryAny (parameterTypes compiledAny) /\
  objectMapperTransformer compiledAny intType [Some "abc"]
  = Panicked (CollaboratorError "invalid syntax: abc") /\
  elems (snd (matchSample compiledAny "abc" [intType] memoryAny))
    (parameterTypes compiledAny)
  = elems memoryAny (parameterTypes compiledAny) /\
  (forall l, l < next memoryAny ->
             objects (snd (matchSample compiledAny "abc" [intType] memoryAny)) l
             = objects memoryAny l).
Proof.
  destruct (transform_failure_is_a_panic_and_Match_stays_usable
              sampleDeAnonymized value buildWhole
              compiledAny "abc" [intType] memoryAny memoryAny_wellStored)
    as [Hpanic [_ [Hlist Hobjects]]].
  split; [exact memoryAny_wellStored |].
  split; [exact (Hpanic intType "abc" [] _ eq_refl) |].
  split; [exact Hlist | exact Hobjects].
Defined.

(** C2 as stated fails: the transform of the de-anonymized type at position 0
    rejects the text with a panic; with a builder that runs the transform the
    call panics, and with no builder at all does Match return an error. *)
Lemma transform_failure_counterexample :
  objectMapperTransformer compiledAny intType [Some "abc"]
  = Panicked (CollaboratorError "invalid syntax: abc") /\
  fst (matchSample compiledAny "abc" [intType] memoryAny)
  = Panicked (CollaboratorError "invalid syntax: abc") /\
  (forall (Argument : Type)
          (BuildArguments : option TreeRegexp -> string -> list pointer ->
                            memory -> outcome (option (list Argument)))
          (args : option (list Argument)) (err : error) (m' : memory),
      Match sampleDeAnonymized Argument BuildArguments
        compiledAny "abc" [intType] memoryAny
      <> (Returned (args, Some err), m')).
Proof.
  split; [reflexivity |]. split; [reflexivity |].
  intros Argument BuildArguments args err m' H.
  apply Match_error in H; [| exact memoryAny_wellStored].
  destruct H as [_ [i [p [_ [_ Hde]]]]]. discriminate.
Qed.

(** ** The further properties on the sample *)

Lemma rewriting_only_appends_witness :
  rewriteSample cukes (start cukesSource)
  = (Ok cukesPattern,
     (set_parameterTypes (fresh cukesSource) (Some 6), memoryCukes)) /\
  parameterTypeRegistry (set_parameterTypes (fresh cukesSource) (Some 6))
  = registry /\
  (forall l, objects memoryCukes l = objects memory0 l) /\
  exists entries,
    elems memoryCukes (Some 6) = (elems memory0 None ++ entries)%list.
Proof.
  assert (H : rewriteSample cukes (start cukesSource)
              = (Ok cukesPattern,
                 (set_parameterTypes (fresh cukesSource) (Some 6),
                  memoryCukes))) by reflexivity.
  destruct (rewriting_only_appends_to_the_stored_list nodeText checkName
              cukes (fresh cukesSource)
              (set_parameterTypes (fresh cukesSource) (Some 6))
              memory0 memoryCukes (Ok cukesPattern) H)
    as [_ [Hreg [_ [Hobjects Hentries]]]].
  split; [exact H |]. split; [exact Hreg |]. split; [exact Hobjects |].
  exact Hentries.
Defined.

Lemma rewriter_errors_witness :
  rewriteSample undefined (start undefinedSource)
  = (Err (UndefinedParameterTypeError "cuke"), start undefinedSource) /\
  ((exists message,
       In message grammarMessages /\
       UndefinedParameterTypeError "cuke"
       = NewCucumberExpressionError (Sprintf message undefinedSource) /\
       Sprintf message undefinedSource
       = Sprintf message EmptyString ++ undefinedSource) \/
   (exists n,
       In n (parameterNodes undefined) /\
       checkName (nodeText n) = Some (UndefinedParameterTypeError "cuke")) \/
   (exists n,
       In n (parameterNodes undefined) /\
       checkName (nodeText n) = None /\
       lookup (nodeText n) = None /\
       UndefinedParameterTypeError "cuke"
       = NewUndefinedParameterTypeError (nodeText n))).
Proof.
  assert (H : rewriteSample undefined (start undefinedSource)
              = (Err (UndefinedParameterTypeError "cuke"),
                 start undefinedSource)) by reflexivity.
  split; [exact H |].
  exact (rewriter_errors_carry_the_source_or_name_a_parameter
           nodeText checkName undefined (fresh undefinedSource) memory0
           (UndefinedParameterTypeError "cuke") (start undefinedSource) H).
Defined.



Lemma alternative_node_witness :
  rewritesAll rewriteSample [TextN "a"; OptionalN [TextN "b"]] (start "a(b)")
    ["a"; "(?:b)?"] (start "a(b)") /\
  rewriteSample (AlternativeN [TextN "a"; OptionalN [TextN "b"]])
    (start "a(b)")
  = (Ok "a(?:b)?", start "a(b)").
Proof.
  assert (Hall : rewritesAll rewriteSample
                   [TextN "a"; OptionalN [TextN "b"]] (start "a(b)")
                   ["a"; "(?:b)?"] (start "a(b)")).
  { repeat (eapply rewritesAll_cons; [reflexivity |]).
    apply rewritesAll_nil. }
  split; [exact Hall |].
  exact (alternative_node_is_transparent nodeText checkName
           [TextN "a"; OptionalN [TextN "b"]] (mkToken EmptyString)
           (start "a(b)") (start "a(b)") ["a"; "(?:b)?"] Hall).
Defined.

Lemma first_failing_child_witness :
  rewritesAll rewriteSample [TextN "a "] (start undefinedSource) ["a "]
    (start undefinedSource) /\
  rewriteSample (ParameterN "cuke") (start undefinedSource)
  = (Err (UndefinedParameterTypeError "cuke"), start undefinedSource) /\
  rewriteSample
    (ExpressionN [TextN "a "; ParameterN "cuke"; ParameterN "int";
                  OptionalN []])
    (start undefinedSource)
  = (Err (UndefinedParameterTypeError "cuke"), start undefinedSource).
Proof.
  assert (Hbefore : rewritesAll rewriteSample [TextN "a "]
                      (start undefinedSource) ["a "]
                      (start undefinedSource)).
  { eapply rewritesAll_cons; [reflexivity | apply rewritesAll_nil]. }
  assert (Hfail : rewriteSample (ParameterN "cuke") (start undefinedSource)
                  = (Err (UndefinedParameterTypeError "cuke"),
                     start undefinedSource)) by reflexivity.
  split; [exact Hbefore |]. split; [exact Hfail |].
  exact (first_failing_child_decides nodeText checkName expressionNode
           [TextN "a "] [ParameterN "int"; OptionalN []] (ParameterN "cuke")
           (mkToken EmptyString) (start undefinedSource)
           (start undefinedSource) (start undefinedSource) ["a "]
           (UndefinedParameterTypeError "cuke")
           (or_introl eq_refl) Hbefore Hfail).
Defined.

Lemma invalid_parameter_name_witness :
  node_nodeType badName = parameterNode /\
  checkName (nodeText badName)
  = Some (CucumberExpressionError
            "Illegal character in parameter name: a.b") /\
  rewriteSample badName (start badNameSource)
  = (Err (CucumberExpressionError
            "Illegal character in parameter name: a.b"),
     start badNameSource) /\
  exists err m',
    NewCucumberExpression nodeText checkName parseMore mustCompile
      badNameSource registry memory0
    = (Returned (Err err), m').
Proof.
  assert (Hkind : node_nodeType badName = parameterNode) by reflexivity.
  assert (Hcheck : checkName (nodeText badName)
                   = Some (CucumberExpressionError
                             "Illegal character in parameter name: a.b"))
    by reflexivity.
  assert (Hin : In badName (parameterNodes badNameTree))
    by (simpl; left; reflexivity).
  destruct (invalid_parameter_name_fails_construction
              nodeText checkName parseMore mustCompile registry badName _
              Hkind Hcheck) as [Hnode Hnew].
  split; [exact Hkind |]. split; [exact Hcheck |]. split.
  - exact (Hnode (fresh badNameSource) memory0).
  - exact (Hnew badNameSource badNameTree memory0 eq_refl Hin).
Defined.

Lemma construction_independence_witness :
  (forall l, objects memory0 l = objects memoryOther l) /\
  sameConstruction (compile cukesSource)
    (NewCucumberExpression nodeText checkName sampleParse mustCompile
       cukesSource registry memoryOther).
Proof.
  assert (H : forall l, objects memory0 l = objects memoryOther l)
    by (intros l; reflexivity).
  split; [exact H |].
  exact (construction_depends_on_parameter_types_only
           nodeText checkName sampleParse mustCompile
           cukesSource registry memory0 memoryOther H).
Defined.

Lemma processEscapes_injective_witness :
  processEscapes "a.b" = processEscapes ("a" ++ ".b") /\ "a.b" = "a" ++ ".b".
Proof.
  assert (H : processEscapes "a.b" = processEscapes ("a" ++ ".b"))
    by reflexivity.
  split; [exact H |].
  exact (processEscapes_is_injective "a.b" ("a" ++ ".b") H).
Defined.


Lemma plainRegistry_closedTypes : closedTypes plainRegistry memory0.
Proof.
  intros typeName p H. cbn [plainRegistry LookupByTypeName] in H.
  unfold plainLookup in H.
  repeat match type of H with
         | (if ?b then _ else _) = _ => destruct b
         end;
    inversion H; subst; cbn [memory0 objects sampleObjects];
    repeat constructor.
Defined.

Lemma plainRegistry_groupFree : groupFreeTypes plainRegistry memory0.
Proof.
  intros typeName p H. cbn [plainRegistry LookupByTypeName] in H.
  unfold plainLookup in H.
  repeat match type of H with
         | (if ?b then _ else _) = _ => destruct b
         end;
    inversion H; subst; cbn [memory0 objects sampleObjects];
    repeat constructor.
Defined.

Lemma mustCompile_String (pattern : string) (re : Regexp) :
  mustCompile pattern = Returned re -> Regexp_String re = pattern.
Proof.
  intros H. inversion H. reflexivity.
Defined.

Lemma compiled_pattern_groups_witness :
  closedTypes plainRegistry memory0 /\
  groupFreeTypes plainRegistry memory0 /\
  NewCucumberExpression nodeText checkName sampleParse mustCompile
    cukesSource plainRegistry memory0
  = (Returned
       (Ok {| source := cukesSource; parameterTypes := Some 6;
              treeRegexp := Some (NewTreeRegexp (mkRegexp cukesPattern));
              parameterTypeRegistry := plainRegistry |}),
     memoryCukes) /\
  NumSubexp cukesPattern = Some (length (elems memoryCukes (Some 6))).
Proof.
  assert (H : NewCucumberExpression nodeText checkName sampleParse
                mustCompile cukesSource plainRegistry memory0
              = (Returned
                   (Ok {| source := cukesSource; parameterTypes := Some 6;
                          treeRegexp :=
                            Some (NewTreeRegexp (mkRegexp cukesPattern));
                          parameterTypeRegistry := plainRegistry |}),
                 memoryCukes)) by reflexivity.
  destruct (compiled_pattern_has_one_group_per_stored_type
              nodeText checkName sampleParse mustCompile
              cukesSource plainRegistry memory0 memoryCukes _
              mustCompile_String plainRegistry_closedTypes H)
    as [t [Ht [_ Hcount]]].
  split; [exact plainRegistry_closedTypes |].
  split; [exact plainRegistry_groupFree |].
  split; [exact H |].
  cbn [treeRegexp] in Ht. injection Ht as <-.
  exact (Hcount plainRegistry_groupFree).
Defined.

Lemma compiled_expression_accessors_witness :
  compile cukesSource = (Returned (Ok compiledCukes), memoryCukes) /\
  CucumberExpression_Source compiledCukes = cukesSource /\
  CucumberExpression_Regexp compiledCukes = Returned (mkRegexp cukesPattern).
Proof.
  assert (H : compile cukesSource
              = (Returned (Ok compiledCukes), memoryCukes)) by reflexivity.
  destruct (compiled_expression_gives_back_source_and_pattern
              nodeText checkName sampleParse mustCompile
              cukesSource registry memory0 memoryCukes compiledCukes H)
    as [Hsource _].
  split; [exact H |]. split; [exact Hsource | reflexivity].
Defined.

Lemma Match_hints_witness :
  wellStored memoryAny (parameterTypes compiledAny) /\
  matchSample compiledAny "42" [intType] memoryAny
  = matchSample compiledAny "42" [intType; boolType; stringType] memoryAny.
Proof.
  split; [exact memoryAny_wellStored |].
  symmetry.
  exact (proj2 (Match_reads_hints_at_anonymous_positions_only
                  sampleDeAnonymized value buildWhole
                  compiledAny "42" [intType; boolType; stringType] []
                  memoryAny memoryAny_wellStored)).
Defined.

Lemma working_copy_witness :
  wellStored memoryAny (parameterTypes compiledAny) /\
  matchSample compiledAny "42" [intType] memoryAny
  = (Returned (Some [vInt 42], None),
     snd (matchSample compiledAny "42" [intType] memoryAny)) /\
  exists a : loc,
    next memoryAny <= a /\
    length (arrays (snd (matchSample compiledAny "42" [intType] memoryAny)) a)
    = 1 /\
    exists q,
      nth_error
        (arrays (snd (matchSample compiledAny "42" [intType] memoryAny)) a) 0
      = Some (Some q) /\
      next memoryAny < q.
Proof.
  assert (H : matchSample compiledAny "42" [intType] memoryAny
              = (Returned (Some [vInt 42], None),
                 snd (matchSample compiledAny "42" [intType] memoryAny)))
    by reflexivity.
  destruct (working_copy_keeps_named_types_and_allocates_the_others
              sampleDeAnonymized value buildWhole
              compiledAny "42" [intType] memoryAny _ _
              memoryAny_wellStored H)
    as [a [Hfresh [_ [Hlen Hentries]]]].
  split; [exact memoryAny_wellStored |]. split; [exact H |].
  exists a. split; [exact Hfresh |]. split; [exact Hlen |].
  destruct (Hentries 0 0 eq_refl) as [q [Hq Hrange]].
  exists q. split; [exact Hq | exact (proj1 Hrange)].
Defined.

Lemma first_failing_deAnonymization_witness :
  wellStored memoryAny (parameterTypes compiledAny) /\
  strictDeAnonymized (objects memoryAny 0)
    (hintOrDefault 0 [namedType "T"])
    (objectMapperTransformer compiledAny (hintOrDefault 0 [namedType "T"]))
  = Err (CollaboratorError "cannot convert to T") /\
  exists m',
    Match strictDeAnonymized value buildWhole compiledAny "abc"
      [namedType "T"] memoryAny
    = (Returned (None, Some (CollaboratorError "cannot convert to T")), m').
Proof.
  assert (Hfail : strictDeAnonymized (objects memoryAny 0)
                    (hintOrDefault 0 [namedType "T"])
                    (objectMapperTransformer compiledAny
                       (hintOrDefault 0 [namedType "T"]))
                  = Err (CollaboratorError "cannot convert to T"))
    by reflexivity.
  split; [exact memoryAny_wellStored |]. split; [exact Hfail |].
  apply (first_failing_deAnonymization_is_the_error_of_Match
           strictDeAnonymized value buildWhole
           compiledAny "abc" [namedType "T"] memoryAny 0 0 _
           memoryAny_wellStored eq_refl eq_refl Hfail).
  intros j Hj. exfalso. exact (Nat.nlt_0_r j Hj).
Defined.

Lemma registry_allocated : registryAllocated registry memory0.
Proof.
  intros typeName p H. cbn [registry LookupByTypeName] in H.
  unfold lookup in H.
  repeat match type of H with
         | (if ?b then _ else _) = _ => destruct b
         end;
    inversion H; subst; cbn [memory0 next]; repeat constructor.
Defined.

Lemma compiled_expression_ready_witness :
  registryAllocated registry memory0 /\
  compile anySource = (Returned (Ok compiledAny), memoryAny) /\
  wellStored memoryAny (parameterTypes compiledAny) /\
  wellStored (snd (matchSample compiledAny "abc" [intType] memoryAny))
    (parameterTypes compiledAny) /\
  elems (snd (matchSample compiledAny "abc" [intType] memoryAny))
    (parameterTypes compiledAny)
  = elems memoryAny (parameterTypes compiledAny).
Proof.
  assert (H : compile anySource = (Returned (Ok compiledAny), memoryAny))
    by reflexivity.
  destruct (compiled_expression_stays_ready_for_Match
              nodeText checkName sampleParse mustCompile
              sampleDeAnonymized value buildWhole
              anySource registry memory0 memoryAny compiledAny
              registry_allocated H) as [Hwell [_ Hafter]].
  split; [exact registry_allocated |]. split; [exact H |].
  split; [exact Hwell |]. exact (Hafter "abc" [intType]).
Defined.
